(** * seller.py: reconciliation and batching pipeline

    A shallow embedding of [seller.py]: the pagination loop of
    [get_offer_ids], the two derivations [create_stocks] and
    [create_prices] over the shared list [offer_ids], [price_conversion],
    the generator [divide], and the callers [upload_stocks] and [main].

    Conventions.
    - A Python [str] is a [string] holding its UTF-8 bytes.  The operations
      used by the program (equality, [split(".")], deletion of the
      characters outside [0-9]) act on the bytes as they act on the code
      points, because no byte of a multi-byte character is an ASCII one.
    - A spreadsheet cell is a [pyval]: [None], an [int] or a [str].
      Floating-point cells are outside this model.
    - A function that can raise returns a [result]; a function that reads or
      mutates the list object [offer_ids], or that sends a request, is a
      computation of the monad [M].
    - A loop without a bound takes a fuel argument and answers [OutOfFuel]
      when the fuel does not suffice. *)

From Stdlib Require Import Ascii.
From stdpp Require Import gmap strings list pretty.

Open Scope string_scope.
Open Scope list_scope.
Open Scope Z_scope.

(** ** Python values, exceptions and builtins *)

Inductive exn : Set :=
  | AttributeError
  | TypeError
  | ValueError
  | IndexError
  | HTTPError.

Inductive result (A : Type) : Type :=
  | Ok (a : A)
  | Raise (e : exn).
Arguments Ok {A} a.
Arguments Raise {A} e.

Definition is_Ok {A} (r : result A) : Prop := ∃ a, r = Ok a.

Inductive pyval : Set :=
  | PyNone
  | PyInt (z : Z)
  | PyStr (s : string).

Global Instance pyval_eq_dec : EqDecision pyval.
Proof. solve_decision. Defined.

Global Instance exn_eq_dec : EqDecision exn.
Proof. solve_decision. Defined.

Module Py.

(** [str(v)]. *)
Definition str (v : pyval) : string :=
  match v with
  | PyNone => "None"
  | PyInt z => pretty z
  | PyStr s => s
  end.

Definition is_digit (c : Ascii.ascii) : bool :=
  let n := Ascii.nat_of_ascii c in ((48 <=? n) && (n <=? 57))%nat.

Definition digit_val (c : Ascii.ascii) : Z :=
  Z.of_nat (Ascii.nat_of_ascii c) - 48.

(** The ASCII white space of [int]: space, and the characters 9 to 13. *)
Definition is_space (c : Ascii.ascii) : bool :=
  let n := Ascii.nat_of_ascii c in ((n =? 32) || ((9 <=? n) && (n <=? 13)))%nat.

Fixpoint lstrip (s : string) : string :=
  match s with
  | String c s' => if is_space c then lstrip s' else s
  | EmptyString => s
  end.

Fixpoint all_space (s : string) : bool :=
  match s with
  | String c s' => is_space c && all_space s'
  | EmptyString => true
  end.

(** The digits of a decimal literal after its first digit: further digits,
    each optionally preceded by one underscore, then white space up to
    the end of the string. *)
Fixpoint scan_digits (s : string) (acc : Z) : option Z :=
  match s with
  | EmptyString => Some acc
  | String c s' =>
      if is_digit c then scan_digits s' (10 * acc + digit_val c)
      else if Ascii.eqb c "_"%char then
        match s' with
        | String d s'' =>
            if is_digit d then scan_digits s'' (10 * acc + digit_val d)
            else None
        | EmptyString => None
        end
      else if all_space s then Some acc
      else None
  end.

Definition scan_unsigned (s : string) : option Z :=
  match s with
  | String c s' => if is_digit c then scan_digits s' (digit_val c) else None
  | EmptyString => None
  end.

(** [int(s)] for a [str] in base 10, on ASCII input: white space, an
    optional sign, digits with single underscores between them, white
    space.  (CPython also accepts non-ASCII decimal digits and white
    space, and refuses literals longer than a configurable number of
    digits; neither is modelled.) *)
Definition int_of_string (s : string) : result Z :=
  let r :=
    match lstrip s with
    | String "+"%char s' => scan_unsigned s'
    | String "-"%char s' => Z.opp <$> scan_unsigned s'
    | s' => scan_unsigned s'
    end in
  match r with
  | Some z => Ok z
  | None => Raise ValueError
  end.

(** [int(v)]. *)
Definition int (v : pyval) : result Z :=
  match v with
  | PyNone => Raise TypeError
  | PyInt z => Ok z
  | PyStr s => int_of_string s
  end.

(** [s.split(sep)] for a separator of one character. *)
Fixpoint split (sep : Ascii.ascii) (s : string) : list string :=
  match s with
  | EmptyString => [EmptyString]
  | String c s' =>
      if Ascii.eqb c sep then EmptyString :: split sep s'
      else match split sep s' with
           | h :: t => String c h :: t
           | [] => [String c EmptyString]
           end
  end.

(** [l[0]]. *)
Definition first {A} (l : list A) : result A :=
  match l with
  | x :: _ => Ok x
  | [] => Raise IndexError
  end.

(** [re.sub("[^0-9]", "", s)]. *)
Fixpoint re_sub_non_digits (s : string) : string :=
  match s with
  | EmptyString => EmptyString
  | String c s' =>
      if is_digit c then String c (re_sub_non_digits s')
      else re_sub_non_digits s'
  end.

(** [l.remove(x)] on the content of a list: the first occurrence goes;
    the caller raises [ValueError] when there is none. *)
Fixpoint remove_first (x : string) (l : list string) : list string :=
  match l with
  | [] => []
  | y :: l' => if decide (x = y) then l' else y :: remove_first x l'
  end.

(** [len(range(start, stop, step))] and [range(start, stop, step)]. *)
Definition range_length (start stop step : Z) : Z :=
  if decide (0 < step) then
    if decide (start < stop) then (stop - start - 1) `div` step + 1 else 0
  else
    if decide (stop < start) then (start - stop - 1) `div` (- step) + 1 else 0.

Definition range (start stop step : Z) : result (list Z) :=
  if decide (step = 0) then Raise ValueError
  else Ok (map (λ k : nat, start + Z.of_nat k * step)
               (seq 0 (Z.to_nat (range_length start stop step)))).

(** A slice bound brought into [0, len]: a negative bound counts from the
    end. *)
Definition adjust (len i : Z) : Z :=
  if decide (i < 0) then Z.max 0 (i + len) else Z.min i len.

(** [l[i:j]]. *)
Definition slice {A} (l : list A) (i j : Z) : list A :=
  let len := Z.of_nat (length l) in
  let lo := adjust len i in
  let hi := adjust len j in
  take (Z.to_nat (hi - lo)) (drop (Z.to_nat lo) l).

End Py.

(** ** State and exceptions

    [M S A]: a computation that reads and writes a state [S] and returns an
    [A] or raises.  The state is the content of the list object [offer_ids]
    for the derivations, and the log of the requests sent for the calls to
    the marketplace. *)

Definition M (S A : Type) : Type := S → result A * S.

Definition ret {S A} (a : A) : M S A := λ s, (Ok a, s).

Definition bind {S A B} (m : M S A) (f : A → M S B) : M S B :=
  λ s,
    match m s with
    | (Ok a, s') => f a s'
    | (Raise e, s') => (Raise e, s')
    end.

Definition lift {S A} (r : result A) : M S A := λ s, (r, s).

(** [x in offer_ids] *)
Definition contains (x : string) : M (list string) bool :=
  λ ids, (Ok (bool_decide (x ∈ ids)), ids).

(** [offer_ids.remove(x)] *)
Definition remove (x : string) : M (list string) unit :=
  λ ids,
    if decide (x ∈ ids) then (Ok tt, Py.remove_first x ids)
    else (Raise ValueError, ids).

(** The content of [offer_ids], as the loop [for offer_id in offer_ids]
    reads it. *)
Definition content : M (list string) (list string) := λ ids, (Ok ids, ids).

Declare Scope store_scope.
Delimit Scope store_scope with store.
Notation "x <- m ;; k" := (bind m (λ x, k))
  (at level 100, m at next level, right associativity) : store_scope.
Notation "m ;; k" := (bind m (λ _, k))
  (at level 100, right associativity) : store_scope.
Open Scope store_scope.

(** ** Records *)

(** A remnant row: the dictionary of one spreadsheet line, keyed by column
    header. *)
Abbreviation row := (gmap string pyval).

(** [d.get(k)] *)
Definition get (d : row) (k : string) : pyval := default PyNone (d !! k).

Record stock_update : Set := StockUpdate {
  su_offer_id : string;
  su_stock : Z
}.

Record price_update : Set := PriceUpdate {
  pu_auto_action_enabled : string;
  pu_currency_code : string;
  pu_offer_id : string;
  pu_old_price : string;
  pu_price : string
}.

(** ** [price_conversion] (lines 274-298) *)

Definition price_conversion (price : pyval) : result string :=
  match price with
  | PyStr s =>
      match Py.first (Py.split "."%char s) with
      | Ok head => Ok (Py.re_sub_non_digits head)
      | Raise e => Raise e
      end
  | _ => Raise AttributeError
  end.

(** ** [create_stocks] (lines 196-233) *)

(** [str(watch.get("Код"))] *)
Definition code (watch : row) : string := Py.str (get watch "Код").

(** Lines 221-227: the stock of a matched row. *)
Definition stock_of (watch : row) : result Z :=
  let count := Py.str (get watch "Количество") in
  if decide (count = ">10") then Ok 100
  else if decide (count = "1") then Ok 0
  else Py.int (get watch "Количество").

(** Lines 219-229: the loop over the remnants; [stocks] is the list built so
    far. *)
Fixpoint create_stocks_loop (watch_remnants : list row)
    (stocks : list stock_update) : M (list string) (list stock_update) :=
  match watch_remnants with
  | [] => ret stocks
  | watch :: rest =>
      found <- contains (code watch) ;;
      if (found : bool) then
        stock <- lift (stock_of watch) ;;
        let stocks := stocks ++ [StockUpdate (code watch) stock] in
        remove (code watch) ;;
        create_stocks_loop rest stocks
      else create_stocks_loop rest stocks
  end.

Definition create_stocks (watch_remnants : list row) :
    M (list string) (list stock_update) :=
  stocks <- create_stocks_loop watch_remnants [] ;;
  offer_ids <- content ;;
  ret (stocks ++ map (λ offer_id, StockUpdate offer_id 0) offer_ids).

(** ** [create_prices] (lines 236-271) *)

Fixpoint create_prices_loop (watch_remnants : list row)
    (prices : list price_update) : M (list string) (list price_update) :=
  match watch_remnants with
  | [] => ret prices
  | watch :: rest =>
      found <- contains (code watch) ;;
      if (found : bool) then
        p <- lift (price_conversion (get watch "Цена")) ;;
        let price := PriceUpdate "UNKNOWN" "RUB" (code watch) "0" p in
        create_prices_loop rest (prices ++ [price])
      else create_prices_loop rest prices
  end.

Definition create_prices (watch_remnants : list row) :
    M (list string) (list price_update) :=
  create_prices_loop watch_remnants [].

(** ** [divide] (lines 301-323), consumed by [list(...)] *)

Definition divide {A} (lst : list A) (n : Z) : result (list (list A)) :=
  match Py.range 0 (Z.of_nat (length lst)) n with
  | Ok indices => Ok (map (λ i, Py.slice lst i (i + n)) indices)
  | Raise e => Raise e
  end.


(** ** The marketplace (lines 14-154) *)

Record product : Set := Product {
  prod_product_id : Z;
  prod_offer_id : string
}.

(** The ["result"] object of one answer of the listing endpoint. *)
Record page : Set := Page {
  page_items : list product;
  page_total : Z;
  page_last_id : string
}.

Inductive request : Set :=
  | PricesImport (prices : list price_update)
  | StocksImport (stocks : list stock_update).

(** What a loop without a bound can do with a given fuel. *)
Inductive outcome (A : Type) : Type :=
  | Returned (a : A)
  | Raised (e : exn)
  | OutOfFuel.
Arguments Returned {A} a.
Arguments Raised {A} e.
Arguments OutOfFuel {A}.

Section Marketplace.

(** The listing endpoint: its answer to the [k]-th request, sent with
    the cursor [last_id]; [Raise] is what [raise_for_status] or the
    transport does. *)
Variable catalog : nat → string → result page.

(** The import endpoints: whether a request succeeds after the requests
    already sent. *)
Variable accepts : list request → request → bool.

Definition get_product_list (k : nat) (last_id : string) : result page :=
  catalog k last_id.

(** Lines 68-76; [k] counts the requests already sent. *)
Fixpoint get_offer_ids_loop (fuel k : nat) (last_id : string)
    (product_list : list product) : outcome (list product) :=
  match fuel with
  | O => OutOfFuel
  | S fuel =>
      match get_product_list k last_id with
      | Raise e => Raised e
      | Ok some_prod =>
          let product_list := product_list ++ page_items some_prod in
          if decide (page_total some_prod = Z.of_nat (length product_list))
          then Returned product_list
          else
            get_offer_ids_loop fuel (S k) (page_last_id some_prod) product_list
      end
  end.

Definition get_offer_ids (fuel : nat) : outcome (list string) :=
  match get_offer_ids_loop fuel 0 "" [] with
  | Returned product_list => Returned (map prod_offer_id product_list)
  | Raised e => Raised e
  | OutOfFuel => OutOfFuel
  end.

Definition post (req : request) : M (list request) unit :=
  λ log,
    (if accepts log req then Ok tt else Raise HTTPError, log ++ [req]).

Definition update_price (prices : list price_update) : M (list request) unit :=
  post (PricesImport prices).

Definition update_stocks (stocks : list stock_update) : M (list request) unit :=
  post (StocksImport stocks).

(** [for x in l: f(x)] *)
Fixpoint for_each {S A} (f : A → M S unit) (l : list A) : M S unit :=
  match l with
  | [] => ret tt
  | x :: l' => f x ;; for_each f l'
  end.

(** ** [upload_stocks] (lines 356-389), once awaited *)

Definition upload_stocks_from (watch_remnants : list row)
    (offer_ids : list string) :
    M (list request) (list stock_update * list stock_update) :=
  match create_stocks watch_remnants offer_ids with
  | (Raise e, _) => lift (Raise e)
  | (Ok stocks, _) =>
      chunks <- lift (divide stocks 100) ;;
      for_each update_stocks chunks ;;
      let not_empty := filter (λ stock, su_stock stock ≠ 0) stocks in
      ret (not_empty, stocks)
  end.

Definition upload_stocks (fuel : nat) (watch_remnants : list row)
    (log : list request) :
    outcome (list stock_update * list stock_update) * list request :=
  match get_offer_ids fuel with
  | Returned offer_ids =>
      match upload_stocks_from watch_remnants offer_ids log with
      | (Ok r, log) => (Returned r, log)
      | (Raise e, log) => (Raised e, log)
      end
  | Raised e => (Raised e, log)
  | OutOfFuel => (OutOfFuel, log)
  end.

(** ** [upload_prices] (lines 326-353), once awaited *)



(** ** [main] (lines 392-413) *)

(** Lines 399-406, on the list [offer_ids] that both derivations
    receive. *)
Definition main_updates (watch_remnants : list row)
    (offer_ids : list string) : M (list request) unit :=
  match create_stocks watch_remnants offer_ids with
  | (Raise e, _) => lift (Raise e)
  | (Ok stocks, offer_ids) =>
      chunks <- lift (divide stocks 100) ;;
      for_each update_stocks chunks ;;
      match create_prices watch_remnants offer_ids with
      | (Raise e, _) => lift (Raise e)
      | (Ok prices, _) =>
          chunks <- lift (divide prices 900) ;;
          for_each update_price chunks
      end
  end.

(** [main] returns the exception it caught and printed, if any, and the
    requests it sent; [download_stock] is what the call of line 398
    does. *)
Definition main (fuel : nat) (download_stock : result (list row)) :
    outcome (option exn) * list request :=
  match get_offer_ids fuel with
  | Returned offer_ids =>
      match download_stock with
      | Ok watch_remnants =>
          match main_updates watch_remnants offer_ids [] with
          | (Ok _, log) => (Returned None, log)
          | (Raise e, log) => (Returned (Some e), log)
          end
      | Raise e => (Returned (Some e), [])
      end
  | Raised e => (Returned (Some e), [])
  | OutOfFuel => (OutOfFuel, [])
  end.

End Marketplace.

(** * Definitions for the statements *)

(** The rows at which the test of line 220 succeeds, when the loop starts
    on a list of content [ids]. *)
Fixpoint matched_rows (rem : list row) (ids : list string) : list row :=
  match rem with
  | [] => []
  | watch :: rest =>
      if decide (code watch ∈ ids)
      then watch :: matched_rows rest (Py.remove_first (code watch) ids)
      else matched_rows rest ids
  end.

(** The content of the list after the loop has gone through [rem]. *)
Fixpoint remaining (rem : list row) (ids : list string) : list string :=
  match rem with
  | [] => ids
  | watch :: rest =>
      if decide (code watch ∈ ids)
      then remaining rest (Py.remove_first (code watch) ids)
      else remaining rest ids
  end.

(** The rows whose code no earlier row bears ([seen]: the codes of the
    earlier rows). *)
Fixpoint first_by_code (seen : list string) (rem : list row) : list row :=
  match rem with
  | [] => []
  | watch :: rest =>
      if decide (code watch ∈ seen) then first_by_code seen rest
      else watch :: first_by_code (code watch :: seen) rest
  end.

(** The record of a matched row. *)
Definition emitted (watch : row) (u : stock_update) : Prop :=
  su_offer_id u = code watch ∧ stock_of watch = Ok (su_stock u).

Definition zero_stock (offer_id : string) : stock_update :=
  StockUpdate offer_id 0.

(** The rule of the specification for the stock of a row, in its words:
    the raw quantity, read as a string, is the token [">10"] and the stock
    is 100; or it is the token ["1"] and the stock is 0; or it is neither
    and the stock is the integer parse of the raw quantity. *)
Definition stock_rule (quantity : pyval) (stock : Z) : Prop :=
  let raw := Py.str quantity in
  (raw = ">10" ∧ stock = 100) ∨
  (raw = "1" ∧ stock = 0) ∨
  (raw ≠ ">10" ∧ raw ≠ "1" ∧ Py.int quantity = Ok stock).

(** The record of a row whose code is in the list. *)
Definition priced (watch : row) (p : price_update) : Prop :=
  pu_offer_id p = code watch ∧ pu_currency_code p = "RUB" ∧
  pu_old_price p = "0" ∧ pu_auto_action_enabled p = "UNKNOWN" ∧
  price_conversion (get watch "Цена") = Ok (pu_price p).

Definition chars (s : string) : list Ascii.ascii :=
  String.list_ascii_of_string s.

(** The digit characters, spelled out. *)
Definition digit_chars : list Ascii.ascii :=
  ["0"; "1"; "2"; "3"; "4"; "5"; "6"; "7"; "8"; "9"]%char.

(** The specification, in its words: [head] is the portion of [s] before
    its first ['.'] character (the whole of [s] when it has none). *)
Definition before_first_dot (s head : string) : Prop :=
  ("."%char ∉ chars head) ∧
  (s = head ∨ ∃ rest, s = head +:+ String "."%char rest).

(** The specification, in its words: [s] stripped of every non-digit
    character. *)
Definition digits_of (s : string) : string :=
  String.string_of_list_ascii (filter (λ c, c ∈ digit_chars) (chars s)).

(** The catalog answers the successive requests of the loop, from the
    [k]-th, sent with the cursor [last_id], with the pages [pages]. *)
Fixpoint answers (catalog : nat → string → result page) (k : nat)
    (last_id : string) (pages : list page) : Prop :=
  match pages with
  | [] => True
  | p :: ps =>
      catalog k last_id = Ok p ∧ answers catalog (S k) (page_last_id p) ps
  end.

Definition all_items (pages : list page) : list product :=
  concat (map page_items pages).

(** With the pages [pages] after the items [acc], the accumulated count
    equals the total that the last page reports. *)
Definition reaches_total (acc : list product) (pages : list page) : Prop :=
  ∃ p, last pages = Some p ∧
       page_total p = Z.of_nat (length (acc ++ all_items pages)).

(** The cursor that the loop of [get_offer_ids] holds after the pages
    [pages], when it held [last_id] before them. *)
Definition cursor_after (last_id : string) (pages : list page) : string :=
  fold_left (λ _ p, page_last_id p) pages last_id.


(** ** Sample data *)

Definition rowA : row :=
  {[ "Код" := PyStr "A"; "Количество" := PyStr ">10";
     "Цена" := PyStr "1'000.00" ]}.

Definition rowA2 : row :=
  {[ "Код" := PyStr "A"; "Количество" := PyStr "7";
     "Цена" := PyStr "2'000.00" ]}.

Definition rowC : row :=
  {[ "Код" := PyInt 77; "Количество" := PyInt 3;
     "Цена" := PyStr "15.50" ]}.

Definition rowD : row :=
  {[ "Код" := PyStr "D"; "Количество" := PyStr "23";
     "Цена" := PyStr "5'990.00" ]}.

Definition row_negative : row :=
  {[ "Код" := PyStr "A"; "Количество" := PyStr "-5";
     "Цена" := PyStr "10.00" ]}.

(** A catalog of one page: the offers A and B. *)
Definition catalog_AB (k : nat) (last_id : string) : result page :=
  Ok (Page [Product 1 "A"; Product 2 "B"] 2 "x").

(** Three pages of 1000, 1000 and 500 items, each reporting a total of
    2500. *)
Definition catalog_2500 (k : nat) (last_id : string) : result page :=
  Ok (Page (replicate (if (k <? 2)%nat then 1000%nat else 500%nat)
                      (Product (Z.of_nat k) "x"))
           2500 (pretty (Z.of_nat k))).

(** Pages of three items, each reporting a total of 5. *)
Definition catalog_threes (k : nat) (last_id : string) : result page :=
  Ok (Page (replicate 3 (Product (Z.of_nat k) "x")) 5 (pretty (Z.of_nat k))).

(** Two pages of one item with a total of 9, then a refused request. *)
Definition catalog_broken (k : nat) (last_id : string) : result page :=
  if (k <? 2)%nat then Ok (Page [Product (Z.of_nat k) "x"] 9 "c")
  else Raise HTTPError.

Definition row_int (z : Z) : row :=
  {[ "Код" := PyStr "A"; "Количество" := PyInt z; "Цена" := PyInt 100 ]}.

(** * Properties *)

(** ** The loop of [create_stocks] *)

Ltac run_step :=
  cbn [create_stocks_loop create_prices_loop];
  unfold bind, contains, lift, remove, ret, content; cbn [fst snd].

Lemma create_stocks_loop_run rem : ∀ stocks ids,
  ∃ done us,
    Forall2 emitted (matched_rows done ids) us ∧
    (create_stocks_loop rem stocks ids).2 = remaining done ids ∧
    match (create_stocks_loop rem stocks ids).1 with
    | Ok out => done = rem ∧ out = stocks ++ us
    | Raise e =>
        ∃ watch rest, rem = done ++ watch :: rest ∧
          code watch ∈ remaining done ids ∧ stock_of watch = Raise e
    end.
Proof.
  induction rem as [|watch rest IH]; intros stocks ids.
  - exists [], []. run_step. split; [constructor|]. split; [done|].
    split; [done|]. by rewrite app_nil_r.
  - run_step. destruct (decide (code watch ∈ ids)) as [Hin|Hout].
    + rewrite bool_decide_eq_true_2 by done.
      destruct (stock_of watch) as [z|e] eqn:Hz.
      * rewrite decide_True by done.
        destruct (IH (stocks ++ [StockUpdate (code watch) z])
                     (Py.remove_first (code watch) ids))
          as (done & us & Hus & Hst & Hres).
        exists (watch :: done), (StockUpdate (code watch) z :: us).
        cbn [matched_rows remaining]. rewrite !decide_True by done.
        split; [constructor; [by split|done]|]. split; [done|].
        destruct (create_stocks_loop rest _ _).1 as [out|e].
        -- destruct Hres as [-> ->]. split; [done|]. by rewrite <-app_assoc.
        -- destruct Hres as (w & r & -> & Hw & He). by exists w, r.
      * exists [], []. cbn [matched_rows remaining].
        split; [constructor|]. split; [done|]. by exists watch, rest.
    + rewrite bool_decide_eq_false_2 by done.
      destruct (IH stocks ids) as (done & us & Hus & Hst & Hres).
      exists (watch :: done), us. cbn [matched_rows remaining].
      rewrite !decide_False by done. split; [done|]. split; [done|].
      destruct (create_stocks_loop rest _ _).1 as [out|e].
      * by destruct Hres as [-> ->].
      * destruct Hres as (w & r & -> & Hw & He). by exists w, r.
Qed.

(** ** [remove_first], [remaining] and [matched_rows] *)

Lemma remove_first_notin x l : x ∉ l → Py.remove_first x l = l.
Proof.
  induction l as [|y l IH]; [done|]. intros Hx. cbn.
  rewrite decide_False by (intros ->; apply Hx; left).
  f_equal. apply IH. intros ?. apply Hx. by right.
Qed.

Lemma remove_first_sublist x l : Py.remove_first x l `sublist_of` l.
Proof.
  induction l as [|y l IH]; [done|]. cbn. case_decide.
  - by apply sublist_cons.
  - by apply sublist_skip.
Qed.

Lemma remove_first_perm x l : x ∈ l → x :: Py.remove_first x l ≡ₚ l.
Proof.
  induction l as [|y l IH]; [by intros ?%elem_of_nil|].
  intros Hx. cbn. case_decide as Hxy; [by subst|].
  apply elem_of_cons in Hx as [?|Hx]; [done|].
  rewrite Permutation_swap. by rewrite IH.
Qed.

Lemma remaining_sublist rem : ∀ ids, remaining rem ids `sublist_of` ids.
Proof.
  induction rem as [|w rem IH]; intros ids; cbn; [done|]. case_decide; [|done].
  etrans; [apply IH|apply remove_first_sublist].
Qed.

Lemma matched_remaining_perm rem : ∀ ids,
  map code (matched_rows rem ids) ++ remaining rem ids ≡ₚ ids.
Proof.
  induction rem as [|w rem IH]; intros ids; cbn; [done|]. case_decide; [|done].
  cbn. rewrite IH. by apply remove_first_perm.
Qed.

Lemma matched_rows_app done rest ids :
  matched_rows (done ++ rest) ids
  = matched_rows done ids ++ matched_rows rest (remaining done ids).
Proof.
  revert ids. induction done as [|w done IH]; intros ids; cbn; [done|].
  case_decide; [|done]. by rewrite IH.
Qed.

Lemma remaining_app done rest ids :
  remaining (done ++ rest) ids = remaining rest (remaining done ids).
Proof.
  revert ids. induction done as [|w done IH]; intros ids; cbn; [done|].
  by case_decide.
Qed.

Lemma matched_rows_sublist rem : ∀ ids, matched_rows rem ids `sublist_of` rem.
Proof.
  induction rem as [|w rem IH]; intros ids; cbn; [done|]. case_decide.
  - by apply sublist_skip.
  - by apply sublist_cons.
Qed.

Lemma matched_rows_code rem : ∀ ids w,
  w ∈ matched_rows rem ids → code w ∈ ids.
Proof.
  intros ids w Hw.
  rewrite <-(matched_remaining_perm rem ids). apply elem_of_app. left.
  by apply list_elem_of_fmap_2.
Qed.

(** *** On a duplicate-free list *)

Lemma list_difference_ext (l k k' : list string) :
  (∀ x, x ∈ l → x ∈ k ↔ x ∈ k') →
  list_difference l k = list_difference l k'.
Proof.
  induction l as [|y l IH]; [done|]. intros Hk. cbn.
  rewrite IH by (intros x Hx; apply Hk; by right).
  assert (y ∈ k ↔ y ∈ k') as Hy by (apply Hk; left).
  destruct (decide_rel elem_of y k), (decide_rel elem_of y k'); tauto.
Qed.

Lemma list_difference_cons_notin (l k : list string) x :
  x ∉ l → list_difference l (x :: k) = list_difference l k.
Proof.
  intros Hx. apply list_difference_ext. intros y Hy. rewrite elem_of_cons.
  split; [intros [->|?]; done|by right].
Qed.

Lemma remove_first_difference (l k : list string) x :
  NoDup l →
  Py.remove_first x (list_difference l k) = list_difference l (x :: k).
Proof.
  induction 1 as [|y l Hy Hl IH]; [done|]. cbn.
  destruct (decide_rel elem_of y k) as [Hyk|Hyk].
  - rewrite IH.
    destruct (decide_rel elem_of y (x :: k)) as [|Hn]; [done|].
    exfalso. apply Hn. by right.
  - cbn. case_decide as Hxy.
    + subst y. destruct (decide_rel elem_of x (x :: k)) as [|Hn].
      * by rewrite list_difference_cons_notin.
      * exfalso. apply Hn. left.
    + rewrite IH. destruct (decide_rel elem_of y (x :: k)) as [Hyx|]; [|done].
      apply elem_of_cons in Hyx as [?|?]; congruence.
Qed.

Lemma list_difference_nil_r (l : list string) : list_difference l [] = l.
Proof.
  induction l as [|y l IH]; [done|]. cbn. rewrite IH.
  destruct (decide_rel elem_of y []) as [H|]; [|done]. by apply elem_of_nil in H.
Qed.

Lemma remaining_difference rem : ∀ seen ids,
  NoDup ids →
  remaining rem (list_difference ids seen)
  = list_difference ids (seen ++ map code rem).
Proof.
  induction rem as [|w rem IH]; intros seen ids Hids; cbn.
  - by rewrite app_nil_r.
  - case_decide as Hin.
    + rewrite remove_first_difference, IH by done.
      apply list_difference_ext. intros x _.
      rewrite !elem_of_app, !elem_of_cons. tauto.
    + rewrite IH by done. apply list_difference_ext. intros x Hx.
      rewrite !elem_of_app, !elem_of_cons. split; [tauto|].
      intros [?|[->|?]]; [tauto| |tauto].
      left. destruct (decide (code w ∈ seen)) as [|Hs]; [done|].
      exfalso. apply Hin. by apply list_elem_of_difference.
Qed.

Lemma remaining_NoDup rem ids :
  NoDup ids → remaining rem ids = list_difference ids (map code rem).
Proof.
  intros Hids. rewrite <-(list_difference_nil_r ids) at 1.
  by rewrite remaining_difference.
Qed.

Lemma matched_rows_difference rem : ∀ seen ids,
  NoDup ids →
  matched_rows rem (list_difference ids seen)
  = filter (λ w, code w ∈ ids) (first_by_code seen rem).
Proof.
  induction rem as [|w rem IH]; intros seen ids Hids; cbn; [done|].
  destruct (decide (code w ∈ seen)) as [Hs|Hs].
  - rewrite decide_False; [by apply IH|].
    rewrite list_elem_of_difference. tauto.
  - destruct (decide (code w ∈ ids)) as [Hi|Hi].
    + rewrite decide_True by (by apply list_elem_of_difference).
      rewrite filter_cons_True by done.
      by rewrite remove_first_difference, IH.
    + rewrite decide_False by (rewrite list_elem_of_difference; tauto).
      rewrite filter_cons_False by done.
      by rewrite <-IH, list_difference_cons_notin.
Qed.

Lemma matched_rows_NoDup rem ids :
  NoDup ids →
  matched_rows rem ids = filter (λ w, code w ∈ ids) (first_by_code [] rem).
Proof.
  intros Hids. rewrite <-(list_difference_nil_r ids) at 1.
  by apply matched_rows_difference.
Qed.

(** The first row of a code is matched as soon as the code is in the
    list. *)
Lemma matched_rows_first rem : ∀ ids i w,
  rem !! i = Some w → code w ∈ ids → code w ∉ map code (take i rem) →
  w ∈ matched_rows rem ids.
Proof.
  induction rem as [|v rem IH]; intros ids i w Hi Hw Hfirst; [done|].
  destruct i as [|i]; cbn in *.
  - injection Hi as ->. rewrite decide_True by done. left.
  - apply not_elem_of_cons in Hfirst as [Hne Hfirst].
    case_decide.
    + right. eapply IH; [done| |done].
      clear -Hw Hne. induction ids as [|y ids IHids]; [done|]. cbn.
      case_decide as Hy.
      * apply elem_of_cons in Hw as [?|?]; congruence.
      * apply elem_of_cons in Hw as [->|?]; [left|right; by apply IHids].
    + by eapply IH.
Qed.

(** ** [create_stocks]: its result and the content it leaves *)

Lemma create_stocks_Ok rem ids stocks ids' :
  create_stocks rem ids = (Ok stocks, ids') →
  ∃ us, Forall2 emitted (matched_rows rem ids) us ∧
        stocks = us ++ map zero_stock (remaining rem ids) ∧
        ids' = remaining rem ids.
Proof.
  unfold create_stocks, bind, content, ret.
  destruct (create_stocks_loop_run rem [] ids) as (done & us & Hus & Hst & Hres).
  destruct (create_stocks_loop rem [] ids) as [[out|e] st]; [|done].
  cbn in *. destruct Hres as [-> ->]. intros [= <- <-]. subst st. by exists us.
Qed.

Lemma create_stocks_returns rem ids :
  Forall (λ w, is_Ok (stock_of w)) (matched_rows rem ids) →
  is_Ok (create_stocks rem ids).1.
Proof.
  intros Hall. unfold create_stocks, bind, content, ret.
  destruct (create_stocks_loop_run rem [] ids) as (done & us & Hus & Hst & Hres).
  destruct (create_stocks_loop rem [] ids) as [[out|e] st]; cbn in *.
  - by eexists.
  - destruct Hres as (w & rest & -> & Hw & He).
    rewrite matched_rows_app in Hall. apply Forall_app in Hall as [_ Hall].
    cbn in Hall. rewrite decide_True in Hall by done.
    apply Forall_cons in Hall as [[z Hz] _]. congruence.
Qed.

Lemma create_stocks_offer_ids rem ids stocks ids' :
  create_stocks rem ids = (Ok stocks, ids') →
  map su_offer_id stocks
  = map code (matched_rows rem ids) ++ remaining rem ids.
Proof.
  intros (us & Hus & -> & _)%create_stocks_Ok.
  rewrite map_app, map_map, map_id. f_equal.
  induction Hus as [|w u ws us [Hu _] _ IH]; [done|]. cbn. by rewrite Hu, IH.
Qed.

(** C1.  On a duplicate-free list of catalog offer identifiers,
    [create_stocks] returns as soon as the stocks of the matched rows can be
    computed, and the offer identifiers of its result are: those of the
    matched rows (the first row of each code that is in the catalog), in
    the order of the remnants, then the catalog identifiers that no row
    bears, in the order of the catalog.  Every catalog identifier occurs
    exactly once in it, and no other identifier does. *)
Theorem create_stocks_each_offer_id_once (rem : list row) (ids : list string) :
  NoDup ids →
  let matched := filter (λ w, code w ∈ ids) (first_by_code [] rem) in
  (Forall (λ w, is_Ok (stock_of w)) matched → is_Ok (create_stocks rem ids).1) ∧
  ∀ stocks ids', create_stocks rem ids = (Ok stocks, ids') →
    map su_offer_id stocks
    = map code matched ++ list_difference ids (map code rem) ∧
    NoDup (map su_offer_id stocks) ∧
    (∀ x, x ∈ map su_offer_id stocks ↔ x ∈ ids) ∧
    map su_offer_id stocks ≡ₚ ids.
Proof.
  intros Hids matched. subst matched. rewrite <-matched_rows_NoDup by done.
  split; [apply create_stocks_returns|].
  intros stocks ids' Hrun.
  pose proof (create_stocks_offer_ids _ _ _ _ Hrun) as Hout.
  assert (map su_offer_id stocks ≡ₚ ids) as Hperm
    by (rewrite Hout; apply matched_remaining_perm).
  split; [by rewrite Hout, remaining_NoDup|].
  split; [by rewrite Hperm|]. split; [|done].
  intros x. by rewrite Hperm.
Qed.

Lemma create_stocks_each_offer_id_once_witness :
  NoDup ["A"; "B"; "D"] ∧
  map su_offer_id
    [StockUpdate "D" 23; StockUpdate "A" 100; StockUpdate "B" 0]
  ≡ₚ ["A"; "B"; "D"].
Proof.
  assert (NoDup ["A"; "B"; "D"]) as Hids
    by (apply (bool_decide_unpack _); vm_compute; exact I).
  split; [exact Hids|].
  apply (proj2 (create_stocks_each_offer_id_once
                  [rowD; rowC; rowA; rowA2] ["A"; "B"; "D"] Hids)
               _ ["B"]).
  vm_compute. reflexivity.
Defined.

Lemma stock_of_rule (watch : row) (z : Z) :
  stock_of watch = Ok z ↔ stock_rule (get watch "Количество") z.
Proof.
  unfold stock_of, stock_rule. cbn zeta.
  destruct (decide (Py.str (get watch "Количество") = ">10")) as [E1|E1].
  { rewrite E1. split; [intros [= <-]; by left|].
    intros [[_ ->]|[[? _]|(? & _)]]; done. }
  destruct (decide (Py.str (get watch "Количество") = "1")) as [E2|E2].
  { rewrite E2. split; [intros [= <-]; right; by left|].
    intros [[? _]|[[_ ->]|(_ & ? & _)]]; done. }
  split; [intros ?; right; by right|].
  intros [[? _]|[[? _]|(_ & _ & ?)]]; done.
Qed.

Lemma Forall2_elem_of_l {A B} (P : A → B → Prop) (l : list A) (k : list B) x :
  Forall2 P l k → x ∈ l → ∃ y, y ∈ k ∧ P x y.
Proof.
  induction 1 as [|a b l k Hab _ IH]; [by intros ?%elem_of_nil|].
  intros [->|Hx]%elem_of_cons.
  - exists b. split; [left|done].
  - destruct (IH Hx) as (y & ? & ?). exists y. split; [by right|done].
Qed.

Lemma Forall2_elem_of_r {A B} (P : A → B → Prop) (l : list A) (k : list B) y :
  Forall2 P l k → y ∈ k → ∃ x, x ∈ l ∧ P x y.
Proof.
  induction 1 as [|a b l k Hab _ IH]; [by intros ?%elem_of_nil|].
  intros [->|Hy]%elem_of_cons.
  - exists a. split; [left|done].
  - destruct (IH Hy) as (x & ? & ?). exists x. split; [by right|done].
Qed.

Lemma matched_rows_elem_of rem ids w : w ∈ matched_rows rem ids → w ∈ rem.
Proof. intros Hw. eapply elem_of_sublist; [exact Hw|apply matched_rows_sublist]. Qed.

Lemma remaining_absent rem ids x :
  x ∈ ids → x ∉ map code rem → x ∈ remaining rem ids.
Proof.
  intros Hx Hrem. rewrite <-(matched_remaining_perm rem ids) in Hx.
  apply elem_of_app in Hx as [Hx|Hx]; [|done].
  apply list_elem_of_fmap in Hx as (w & -> & Hw).
  exfalso. apply Hrem, list_elem_of_fmap_2. by eapply matched_rows_elem_of.
Qed.

(** C2.  The stock of every matched row obeys the rule of the
    specification: 100 for the token [">10"], 0 for the token ["1"], the
    integer parse of the raw quantity otherwise (23 for ["23"]); the result
    is made of the records of the matched rows followed by a record of
    stock 0 for every identifier left in the list, and a catalog identifier
    that no row bears has stock 0.  The first row of a code that is in the
    catalog is a matched row. *)
Theorem create_stocks_stock_rule (rem : list row) (ids : list string) :
  (stock_of {[ "Количество" := PyStr ">10" ]} = Ok 100 ∧
   stock_of {[ "Количество" := PyStr "1" ]} = Ok 0 ∧
   stock_of {[ "Количество" := PyStr "23" ]} = Ok 23) ∧
  (∀ watch z, stock_of watch = Ok z ↔ stock_rule (get watch "Количество") z) ∧
  ((∀ watch, watch ∈ matched_rows rem ids →
      ∃ z, stock_rule (get watch "Количество") z) →
   is_Ok (create_stocks rem ids).1) ∧
  ∀ stocks ids', create_stocks rem ids = (Ok stocks, ids') →
    ∃ us,
      stocks = us ++ map (λ offer_id, StockUpdate offer_id 0) ids' ∧
      Forall2 (λ watch u, su_offer_id u = code watch ∧
                          stock_rule (get watch "Количество") (su_stock u))
              (matched_rows rem ids) us ∧
      (∀ i watch, rem !! i = Some watch → code watch ∈ ids →
         code watch ∉ map code (take i rem) →
         ∃ u, u ∈ us ∧ su_offer_id u = code watch ∧
              stock_rule (get watch "Количество") (su_stock u)) ∧
      (∀ offer_id, offer_id ∈ ids → offer_id ∉ map code rem →
         offer_id ∈ ids' ∧
         ∀ u, u ∈ stocks → su_offer_id u = offer_id → su_stock u = 0).
Proof.
  split; [by vm_compute|]. split; [apply stock_of_rule|]. split.
  { intros Hall. apply create_stocks_returns, Forall_forall.
    intros w Hw. destruct (Hall w Hw) as [z Hz]. exists z.
    by apply stock_of_rule. }
  intros stocks ids' (us & Hus & -> & ->)%create_stocks_Ok.
  assert (Forall2 (λ watch u, su_offer_id u = code watch ∧
                     stock_rule (get watch "Количество") (su_stock u))
                  (matched_rows rem ids) us) as Hrule.
  { eapply Forall2_impl; [exact Hus|]. intros w u [? ?]. split; [done|].
    by apply stock_of_rule. }
  exists us. split; [done|]. split; [done|]. split.
  - intros i w Hi Hw Hfirst.
    destruct (Forall2_elem_of_l _ _ _ w Hrule) as (u & ? & ? & ?);
      [by eapply matched_rows_first|]. by exists u.
  - intros x Hx Hrem. split; [by apply remaining_absent|].
    intros u [Hu|Hu]%elem_of_app Hid.
    + destruct (Forall2_elem_of_r _ _ _ _ Hus Hu) as (w & Hw & Hcode & _).
      exfalso. apply Hrem. rewrite <-Hid, Hcode.
      by eapply list_elem_of_fmap_2, matched_rows_elem_of.
    + by apply list_elem_of_fmap in Hu as (y & -> & _).
Qed.

Lemma create_stocks_stock_rule_witness :
  ∃ us,
    [StockUpdate "D" 23; StockUpdate "A" 100; StockUpdate "B" 0]
    = us ++ map (λ offer_id, StockUpdate offer_id 0) ["B"] ∧
    Forall2 (λ watch u, su_offer_id u = code watch ∧
                        stock_rule (get watch "Количество") (su_stock u))
            (matched_rows [rowD; rowC; rowA; rowA2] ["A"; "B"; "D"]) us.
Proof.
  destruct (proj2 (proj2 (proj2 (create_stocks_stock_rule
                                   [rowD; rowC; rowA; rowA2] ["A"; "B"; "D"])))
              [StockUpdate "D" 23; StockUpdate "A" 100; StockUpdate "B" 0]
              ["B"])
    as (us & Hstocks & Hrule & _).
  - vm_compute. reflexivity.
  - exists us. split; [exact Hstocks|exact Hrule].
Defined.

(** C4, counterexample.  A matched row of quantity ["-5"] yields a Stock
    Update of stock -5. *)
Lemma create_stocks_negative_stock :
  create_stocks [row_negative] ["A"] = (Ok [StockUpdate "A" (-5)], []) ∧
  ¬ (∀ rem ids stocks ids',
       create_stocks rem ids = (Ok stocks, ids') →
       Forall (λ u, 0 ≤ su_stock u) stocks).
Proof.
  assert (create_stocks [row_negative] ["A"] = (Ok [StockUpdate "A" (-5)], []))
    as Hrun by (vm_compute; reflexivity).
  split; [exact Hrun|]. intros Hall.
  specialize (Hall _ _ _ _ Hrun). apply Forall_cons in Hall as [Hneg _].
  cbn in Hneg. lia.
Qed.

(** C4, amended.  The stocks of the result of [create_stocks] are all
    non-negative exactly when no matched row bears a raw quantity, other
    than the tokens [">10"] and ["1"], whose integer parse is negative. *)
Theorem create_stocks_stock_nonneg (rem : list row) (ids : list string)
    (stocks : list stock_update) (ids' : list string) :
  create_stocks rem ids = (Ok stocks, ids') →
  Forall (λ u, 0 ≤ su_stock u) stocks ↔
  ∀ watch z, watch ∈ matched_rows rem ids →
    Py.str (get watch "Количество") ≠ ">10" →
    Py.str (get watch "Количество") ≠ "1" →
    Py.int (get watch "Количество") = Ok z → 0 ≤ z.
Proof.
  intros (us & Hus & -> & ->)%create_stocks_Ok. split.
  - intros Hall w z Hw H10 H1 Hz.
    destruct (Forall2_elem_of_l _ _ _ w Hus Hw) as (u & Hu & _ & Hstock).
    assert (0 ≤ su_stock u) as Hpos.
    { eapply Forall_forall in Hall; [exact Hall|]. apply elem_of_app. by left. }
    apply stock_of_rule in Hstock as [[? _]|[[? _]|(_ & _ & Hint)]]; [done..|].
    congruence.
  - intros Hrows. apply Forall_app. split; apply Forall_forall.
    + intros u Hu.
      destruct (Forall2_elem_of_r _ _ _ u Hus Hu) as (w & Hw & _ & Hstock).
      apply stock_of_rule in Hstock as [[_ ->]|[[_ ->]|(? & ? & Hint)]];
        [lia..|]. by eapply Hrows.
    + by intros u (x & -> & _)%list_elem_of_fmap.
Qed.

Lemma create_stocks_stock_nonneg_witness :
  create_stocks [rowD; rowC; rowA; rowA2] ["A"; "B"; "D"]
  = (Ok [StockUpdate "D" 23; StockUpdate "A" 100; StockUpdate "B" 0], ["B"]) ∧
  (Forall (λ u, 0 ≤ su_stock u)
          [StockUpdate "D" 23; StockUpdate "A" 100; StockUpdate "B" 0] ↔
   ∀ watch z,
     watch ∈ matched_rows [rowD; rowC; rowA; rowA2] ["A"; "B"; "D"] →
     Py.str (get watch "Количество") ≠ ">10" →
     Py.str (get watch "Количество") ≠ "1" →
     Py.int (get watch "Количество") = Ok z → 0 ≤ z).
Proof.
  split; [vm_compute; reflexivity|].
  apply (create_stocks_stock_nonneg _ _ _ ["B"]). vm_compute. reflexivity.
Defined.

(** ** [create_prices] *)

Lemma create_prices_loop_store rem : ∀ prices ids,
  (create_prices_loop rem prices ids).2 = ids.
Proof.
  induction rem as [|w rem IH]; intros prices ids; run_step; [done|].
  destruct (bool_decide (code w ∈ ids)); [|apply IH].
  destruct (price_conversion (get w "Цена")); [apply IH|done].
Qed.

Lemma create_prices_loop_run rem : ∀ prices ids,
  match (create_prices_loop rem prices ids).1 with
  | Ok out =>
      ∃ ps, out = prices ++ ps ∧
            Forall2 priced (filter (λ w, code w ∈ ids) rem) ps
  | Raise e =>
      ∃ w, w ∈ filter (λ w, code w ∈ ids) rem ∧
           price_conversion (get w "Цена") = Raise e
  end.
Proof.
  induction rem as [|w rem IH]; intros prices ids; run_step.
  - exists []. by rewrite app_nil_r.
  - destruct (decide (code w ∈ ids)) as [Hin|Hout].
    + rewrite bool_decide_eq_true_2, filter_cons_True by done.
      destruct (price_conversion (get w "Цена")) as [x|e] eqn:Hx.
      * specialize (IH (prices ++ [PriceUpdate "UNKNOWN" "RUB" (code w) "0" x])
                       ids).
        destruct (create_prices_loop rem _ ids).1 as [out|e].
        -- destruct IH as (ps & -> & Hps).
           exists (PriceUpdate "UNKNOWN" "RUB" (code w) "0" x :: ps).
           split; [by rewrite <-app_assoc|]. by constructor.
        -- destruct IH as (v & Hv & He). exists v. split; [by right|done].
      * exists w. split; [left|done].
    + rewrite bool_decide_eq_false_2, filter_cons_False by done. apply IH.
Qed.

(** C8.  [create_prices] returns as soon as the prices of the rows whose
    code is in the list can be converted; its result has one record for
    each of these rows, in their order, bearing the code of the row, the
    currency ["RUB"], the old price ["0"], the automatic action
    ["UNKNOWN"] and the converted price of the row; so every record bears
    an identifier of the list that a row bears. *)
Theorem create_prices_emits (rem : list row) (ids : list string) :
  (Forall (λ w, is_Ok (price_conversion (get w "Цена")))
          (filter (λ w, code w ∈ ids) rem) →
   is_Ok (create_prices rem ids).1) ∧
  ∀ prices ids', create_prices rem ids = (Ok prices, ids') →
    Forall2 (λ watch p,
               pu_offer_id p = code watch ∧ pu_currency_code p = "RUB" ∧
               pu_old_price p = "0" ∧ pu_auto_action_enabled p = "UNKNOWN" ∧
               price_conversion (get watch "Цена") = Ok (pu_price p))
            (filter (λ w, code w ∈ ids) rem) prices ∧
    ∀ p, p ∈ prices → pu_offer_id p ∈ ids ∧ pu_offer_id p ∈ map code rem.
Proof.
  unfold create_prices. pose proof (create_prices_loop_run rem [] ids) as Hrun.
  split.
  - intros Hall. destruct (create_prices_loop rem [] ids).1 as [out|e];
      [by eexists|].
    destruct Hrun as (w & Hw & He).
    eapply Forall_forall in Hall as [x Hx]; [|exact Hw]. congruence.
  - intros prices ids' Heq. rewrite Heq in Hrun. cbn in Hrun.
    destruct Hrun as (ps & -> & Hps). cbn. split; [exact Hps|].
    intros p Hp.
    destruct (Forall2_elem_of_r _ _ _ p Hps Hp) as (w & Hw & -> & _).
    apply list_elem_of_filter in Hw as [Hid Hw].
    split; [done|]. by apply list_elem_of_fmap_2.
Qed.

Lemma create_prices_emits_witness :
  Forall2 (λ watch p,
             pu_offer_id p = code watch ∧ pu_currency_code p = "RUB" ∧
             pu_old_price p = "0" ∧ pu_auto_action_enabled p = "UNKNOWN" ∧
             price_conversion (get watch "Цена") = Ok (pu_price p))
          (filter (λ w, code w ∈ ["A"; "B"]) [rowD; rowA; rowA2])
          [PriceUpdate "UNKNOWN" "RUB" "A" "0" "1000";
           PriceUpdate "UNKNOWN" "RUB" "A" "0" "2000"].
Proof.
  apply (proj2 (create_prices_emits [rowD; rowA; rowA2] ["A"; "B"])
               _ ["A"; "B"]).
  vm_compute. reflexivity.
Defined.

(** ** The list [offer_ids] after the derivations *)

Lemma create_stocks_store rem ids :
  ∃ done,
    (create_stocks rem ids).2 = remaining done ids ∧
    match (create_stocks rem ids).1 with
    | Ok _ => done = rem
    | Raise e =>
        ∃ watch rest, rem = done ++ watch :: rest ∧
          code watch ∈ remaining done ids ∧ stock_of watch = Raise e
    end.
Proof.
  unfold create_stocks, bind, content, ret.
  destruct (create_stocks_loop_run rem [] ids) as (done & us & _ & Hst & Hres).
  exists done.
  destruct (create_stocks_loop rem [] ids) as [[out|e] st]; cbn in *.
  - by destruct Hres as [-> _].
  - done.
Qed.

(** C9.  [create_prices] leaves the list as it found it.  [create_stocks]
    leaves the list it found less one occurrence, the first, of the code of
    each matched row: what is left is a sublist of the list in its order,
    the codes of the matched rows and what is left make the list up, an
    identifier that no row bears stays, and a duplicate-free list is left
    without the identifiers that some row bears.  ([done] is the whole of
    the remnants when [create_stocks] returns, and the rows before the one
    whose stock cannot be computed when it raises.) *)
Theorem offer_ids_after_derivation (rem : list row) (ids : list string) :
  (create_prices rem ids).2 = ids ∧
  ∃ done,
    match (create_stocks rem ids).1 with
    | Ok _ => done = rem
    | Raise e =>
        ∃ watch rest, rem = done ++ watch :: rest ∧ stock_of watch = Raise e
    end ∧
    let ids' := (create_stocks rem ids).2 in
    ids' `sublist_of` ids ∧
    map code (matched_rows done ids) ++ ids' ≡ₚ ids ∧
    (∀ offer_id, offer_id ∈ ids → offer_id ∉ map code done → offer_id ∈ ids') ∧
    (NoDup ids → ids' = list_difference ids (map code done)).
Proof.
  split; [apply create_prices_loop_store|].
  destruct (create_stocks_store rem ids) as (done & Hst & Hres).
  exists done. split.
  - destruct (create_stocks rem ids).1; [done|].
    destruct Hres as (w & rest & ? & _ & ?). by exists w, rest.
  - cbn zeta. rewrite Hst. split; [apply remaining_sublist|].
    split; [apply matched_remaining_perm|].
    split; [intros x; apply remaining_absent|apply remaining_NoDup].
Qed.

Lemma offer_ids_after_derivation_witness :
  (create_prices [rowD; rowC; rowA; rowA2] ["A"; "B"; "D"]).2 = ["A"; "B"; "D"] ∧
  (create_stocks [rowD; rowC; rowA; rowA2] ["A"; "B"; "D"]).2 `sublist_of`
    ["A"; "B"; "D"].
Proof.
  destruct (offer_ids_after_derivation [rowD; rowC; rowA; rowA2] ["A"; "B"; "D"])
    as (Hprices & done & _ & Hsub & _).
  split; [exact Hprices|exact Hsub].
Defined.

(** ** [main] and [upload_stocks] *)

Lemma divide_nonzero {A} (lst : list A) (n : Z) :
  n ≠ 0 → is_Ok (divide lst n).
Proof.
  intros Hn. unfold divide, Py.range. rewrite decide_False by done. by eexists.
Qed.

Lemma for_each_update_stocks_log accepts chunks : ∀ log req,
  req ∈ (for_each (update_stocks accepts) chunks log).2 →
  req ∈ log ∨ ∃ stocks, req = StocksImport stocks.
Proof.
  induction chunks as [|c chunks IH]; intros log req; cbn; [by left|].
  unfold bind, update_stocks, post. destruct (accepts log _).
  - intros [[Hr|Hr]%elem_of_app|Hr]%IH; [by left| |by right].
    apply list_elem_of_singleton in Hr. right. by eexists.
  - cbn. intros [Hr|Hr]%elem_of_app; [by left|].
    apply list_elem_of_singleton in Hr. right. by eexists.
Qed.

Lemma for_each_accepted accepts chunks :
  (∀ l r, accepts l r = true) →
  ∀ log, (for_each (update_stocks accepts) chunks log).1 = Ok tt.
Proof.
  intros Hacc. induction chunks as [|c chunks IH]; intros log; cbn; [done|].
  unfold bind, update_stocks, post. rewrite Hacc. apply IH.
Qed.

Lemma filter_code_nil (rem : list row) (k : list string) :
  (∀ w, w ∈ rem → code w ∉ k) → filter (λ w, code w ∈ k) rem = [].
Proof.
  induction rem as [|w l IH]; intros Hno; [done|].
  rewrite filter_cons_False by (apply Hno; left).
  apply IH. intros v Hv. apply Hno. by right.
Qed.

Lemma create_prices_after_create_stocks rem ids stocks ids' :
  NoDup ids →
  create_stocks rem ids = (Ok stocks, ids') →
  ids' = list_difference ids (map code rem) ∧
  create_prices rem ids' = (Ok [], ids').
Proof.
  intros Hids (us & _ & _ & ->)%create_stocks_Ok.
  rewrite remaining_NoDup by done. split; [done|].
  set (left := list_difference ids (map code rem)).
  assert (filter (λ w, code w ∈ left) rem = []) as Hnone.
  { apply filter_code_nil. intros w Hw [_ Hin]%list_elem_of_difference.
    by apply Hin, list_elem_of_fmap_2. }
  unfold create_prices.
  pose proof (create_prices_loop_run rem [] left) as Hrun.
  pose proof (create_prices_loop_store rem [] left) as Hst.
  destruct (create_prices_loop rem [] left) as [[out|e] st]; cbn in *; subst st.
  - destruct Hrun as (ps & -> & Hps). rewrite Hnone in Hps.
    by apply Forall2_nil_inv_l in Hps as ->.
  - destruct Hrun as (w & Hw & _). rewrite Hnone in Hw.
    by apply elem_of_nil in Hw.
Qed.

Lemma main_updates_log accepts rem ids :
  NoDup ids →
  ∀ log req, req ∈ (main_updates accepts rem ids log).2 →
             req ∈ log ∨ ∃ stocks, req = StocksImport stocks.
Proof.
  intros Hids log req. unfold main_updates.
  destruct (create_stocks rem ids) as [[stocks|e] ids'] eqn:Hrun;
    [|by left].
  destruct (create_prices_after_create_stocks _ _ _ _ Hids Hrun) as [_ ->].
  unfold bind, lift. destruct (divide stocks 100) as [chunks|e]; [|by left].
  pose proof (for_each_update_stocks_log accepts chunks log req) as Hlog.
  destruct (for_each (update_stocks accepts) chunks log) as [[[]|e] log'];
    cbn in *; done.
Qed.

(** C3.  On a duplicate-free list, [create_stocks] leaves in the list the
    identifiers that no row bears; [create_prices], called next on the same
    list, returns the empty list, which [divide] splits into no batch; so
    lines 399-406 send nothing but stock batches, and so does [main]
    whenever the catalog answers a duplicate-free list. *)
Theorem main_dispatches_no_price_batch (accepts : list request → request → bool)
    (rem : list row) (ids : list string) :
  NoDup ids →
  (∀ stocks ids', create_stocks rem ids = (Ok stocks, ids') →
     ids' = list_difference ids (map code rem) ∧
     create_prices rem ids' = (Ok [], ids') ∧
     divide ([] : list price_update) 900 = Ok []) ∧
  (∀ log req, req ∈ (main_updates accepts rem ids log).2 →
     req ∈ log ∨ ∃ stocks, req = StocksImport stocks) ∧
  (∀ catalog fuel download,
     get_offer_ids catalog fuel = Returned ids →
     ∀ req, req ∈ (main catalog accepts fuel download).2 →
            ∃ stocks, req = StocksImport stocks).
Proof.
  intros Hids. split; [|split].
  - intros stocks ids' Hrun.
    destruct (create_prices_after_create_stocks _ _ _ _ Hids Hrun) as [? ?].
    done.
  - by apply main_updates_log.
  - intros catalog fuel download Hcat req. unfold main. rewrite Hcat.
    destruct download as [watch_remnants|e]; [|by intros ?%elem_of_nil].
    pose proof (main_updates_log accepts watch_remnants ids Hids [] req) as Hlog.
    destruct (main_updates accepts watch_remnants ids []) as [[[]|e] log];
      cbn in *; intros [?%elem_of_nil|?]%Hlog; done.
Qed.

Lemma main_dispatches_no_price_batch_witness :
  NoDup ["A"; "B"] ∧
  (main catalog_AB (λ _ _, true) 1 (Ok [rowA])).2
  = [StocksImport [StockUpdate "A" 100; StockUpdate "B" 0]] ∧
  ∀ req, req ∈ (main catalog_AB (λ _ _, true) 1 (Ok [rowA])).2 →
         ∃ stocks, req = StocksImport stocks.
Proof.
  assert (NoDup ["A"; "B"]) as Hids
    by (apply (bool_decide_unpack _); vm_compute; exact I).
  split; [exact Hids|]. split; [vm_compute; reflexivity|].
  apply (proj2 (proj2 (main_dispatches_no_price_batch
                         (λ _ _, true) [rowA] ["A"; "B"] Hids))
               catalog_AB 1%nat (Ok [rowA])).
  vm_compute. reflexivity.
Defined.

(** C10.  When [upload_stocks] returns, it returns the list that
    [create_stocks] made from the identifiers of the catalog, and before
    it the records of that list whose stock is not 0, in their order; it
    does return when the catalog answers, [create_stocks] returns and the
    marketplace accepts the batches. *)
Theorem upload_stocks_pair (catalog : nat → string → result page)
    (accepts : list request → request → bool) (fuel : nat)
    (rem : list row) (log : list request) :
  (∀ not_empty stocks log',
     upload_stocks catalog accepts fuel rem log
     = (Returned (not_empty, stocks), log') →
     ∃ ids ids',
       get_offer_ids catalog fuel = Returned ids ∧
       create_stocks rem ids = (Ok stocks, ids') ∧
       not_empty = filter (λ u, su_stock u ≠ 0) stocks ∧
       not_empty `sublist_of` stocks ∧
       ∀ u, u ∈ not_empty ↔ u ∈ stocks ∧ su_stock u ≠ 0) ∧
  (∀ ids stocks ids',
     get_offer_ids catalog fuel = Returned ids →
     create_stocks rem ids = (Ok stocks, ids') →
     (∀ l r, accepts l r = true) →
     (upload_stocks catalog accepts fuel rem log).1
     = Returned (filter (λ u, su_stock u ≠ 0) stocks, stocks)).
Proof.
  unfold upload_stocks, upload_stocks_from. split.
  - intros not_empty stocks log'.
    destruct (get_offer_ids catalog fuel) as [ids| |]; [|done..].
    destruct (create_stocks rem ids) as [[st|e] ids'] eqn:Hrun; [|done].
    unfold bind, lift, ret. destruct (divide st 100) as [chunks|e]; [|done].
    destruct (for_each (update_stocks accepts) chunks log) as [[[]|e] l];
      [|done].
    intros [= <- <- <-]. exists ids, ids'.
    split; [done|]. split; [done|]. split; [done|].
    split; [apply sublist_filter|]. intros u. rewrite list_elem_of_filter. tauto.
  - intros ids stocks ids' -> -> Hacc. unfold bind, lift, ret.
    destruct (divide_nonzero stocks 100) as [chunks ->]; [done|].
    pose proof (for_each_accepted accepts chunks Hacc log) as Hsent.
    destruct (for_each (update_stocks accepts) chunks log) as [[[]|e] l];
      cbn in *; done.
Qed.

Lemma upload_stocks_pair_witness :
  filter (λ u, su_stock u ≠ 0) [StockUpdate "A" 100; StockUpdate "B" 0]
  = [StockUpdate "A" 100] ∧
  (upload_stocks catalog_AB (λ _ _, true) 1 [rowA] []).1
  = Returned (filter (λ u, su_stock u ≠ 0)
                     [StockUpdate "A" 100; StockUpdate "B" 0],
              [StockUpdate "A" 100; StockUpdate "B" 0]).
Proof.
  split; [vm_compute; reflexivity|].
  apply (proj2 (upload_stocks_pair catalog_AB (λ _ _, true) 1 [rowA] [])
               ["A"; "B"] _ ["B"]).
  - vm_compute. reflexivity.
  - vm_compute. reflexivity.
  - intros l r. reflexivity.
Defined.

(** ** [divide] *)

Lemma slice_nonneg {A} (l : list A) (i j : Z) :
  0 ≤ i → 0 ≤ j →
  Py.slice l i j = take (Z.to_nat j - Z.to_nat i) (drop (Z.to_nat i) l).
Proof.
  intros Hi Hj. unfold Py.slice, Py.adjust. cbn zeta.
  rewrite !decide_False by lia.
  destruct (decide (Z.of_nat (length l) ≤ i)) as [Hlen|Hlen].
  - rewrite !drop_ge by lia. by rewrite !take_nil.
  - replace (Z.to_nat (i `min` Z.of_nat (length l))) with (Z.to_nat i) by lia.
    destruct (decide (j ≤ Z.of_nat (length l))) as [Hj'|Hj'].
    + f_equal. lia.
    + rewrite !take_ge; [done|rewrite length_drop; lia..].
Qed.

Lemma concat_chunks {A} (lst : list A) (m cnt : nat) :
  concat (map (λ k, take m (drop (k * m) lst)) (seq 0 cnt))
  = take (cnt * m) lst.
Proof.
  induction cnt as [|cnt IH]; [done|].
  rewrite seq_S, map_app, concat_app, IH. cbn. rewrite app_nil_r.
  rewrite take_take_drop. f_equal. lia.
Qed.

(** The chunks of [divide]: [cnt] slices of [m] elements, taken every [m]
    elements, where [cnt] is the least number of such slices that cover
    the list. *)
Lemma divide_chunks {A} (lst : list A) (n : Z) :
  0 < n →
  let m := Z.to_nat n in
  ∃ cnt : nat,
    divide lst n = Ok (map (λ k, take m (drop (k * m) lst)) (seq 0 cnt)) ∧
    (length lst ≤ cnt * m)%nat ∧
    (cnt ≠ 0%nat → ((cnt - 1) * m < length lst)%nat).
Proof.
  intros Hn m. unfold divide, Py.range, Py.range_length.
  rewrite decide_False, decide_True by lia.
  set (len := Z.of_nat (length lst)).
  set (cnt := Z.to_nat (if decide (0 < len) then (len - 0 - 1) `div` n + 1 else 0)).
  exists cnt. split; [|split].
  - f_equal. rewrite map_map. apply map_ext_in. intros k _.
    rewrite slice_nonneg by lia. f_equal; [|f_equal]; subst m; lia.
  - subst cnt. case_decide as Hlen; [|lia].
    pose proof (Z.mul_succ_div_gt (len - 0 - 1) n Hn) as Hgt.
    pose proof (Z.div_pos (len - 0 - 1) n) as Hpos.
    subst m. nia.
  - subst cnt. case_decide as Hlen; [|done]. intros _.
    pose proof (Z.mul_div_le (len - 0 - 1) n Hn) as Hle.
    pose proof (Z.div_pos (len - 0 - 1) n) as Hpos.
    subst m. nia.
Qed.

(** C5, counterexample.  The list of the integers 1 to 75 has 75
    elements: [divide] yields eight slices for [n = 10], seven of 10
    elements and one of 5, not seven slices. *)
Lemma divide_1_to_75_eight_slices :
  (∃ chunks,
     divide (seq 1 75) 10 = Ok chunks ∧
     map length chunks = [10; 10; 10; 10; 10; 10; 10; 5]%nat) ∧
  ¬ (∃ chunks,
       divide (seq 1 75) 10 = Ok chunks ∧
       length chunks = 7%nat ∧
       map length chunks = [10; 10; 10; 10; 10; 10; 5]%nat).
Proof.
  split.
  - eexists. split; [vm_compute; reflexivity|]. vm_compute. reflexivity.
  - intros (chunks & Hrun & Hlen & _). vm_compute in Hrun.
    injection Hrun as <-. discriminate Hlen.
Qed.

(** C5, amended.  For a positive [n], [divide lst n] yields consecutive
    slices of [lst]: the [i]-th is made of the [n] elements that follow the
    first [i * n], or of those that are left when they are fewer; the
    slices put end to end are [lst]; none is empty, none has more than [n]
    elements and all but the last have [n]; an empty list yields no slice,
    and a list of [len] elements yields the quotient of [len + n - 1] by
    [n] slices.  The list of the integers 1 to 75 yields, for [n = 10],
    eight slices of 10, 10, 10, 10, 10, 10, 10 and 5 elements; the list of
    the integers 10 to 74, the one of the docstring, yields seven slices of
    10, 10, 10, 10, 10, 10 and 5 elements. *)
Theorem divide_partitions :
  (∀ (A : Type) (lst : list A) (n : Z),
     0 < n →
     ∃ chunks,
       divide lst n = Ok chunks ∧
       concat chunks = lst ∧
       (∀ i c, chunks !! i = Some c →
          c = take (Z.to_nat n) (drop (i * Z.to_nat n) lst) ∧
          (0 < length c ≤ Z.to_nat n)%nat ∧
          ((S i < length chunks)%nat → length c = Z.to_nat n)) ∧
       (lst = [] → chunks = []) ∧
       Z.of_nat (length chunks) = (Z.of_nat (length lst) + n - 1) `div` n) ∧
  (∃ chunks,
     divide (seq 1 75) 10 = Ok chunks ∧
     length chunks = 8%nat ∧
     map length chunks = [10; 10; 10; 10; 10; 10; 10; 5]%nat ∧
     concat chunks = seq 1 75) ∧
  (∃ chunks,
     divide (seq 10 65) 10 = Ok chunks ∧
     length chunks = 7%nat ∧
     map length chunks = [10; 10; 10; 10; 10; 10; 5]%nat ∧
     concat chunks = seq 10 65).
Proof.
  split; [|split; (eexists; split; [vm_compute; reflexivity|]);
           vm_compute; repeat split].
  intros A lst n Hn.
  destruct (divide_chunks lst n Hn) as (cnt & Hrun & Hcover & Hleast).
  cbn zeta in *. set (m := Z.to_nat n) in *.
  eexists. split; [exact Hrun|].
  assert (0 < m)%nat as Hm by (subst m; lia).
  split; [|split; [|split]].
  - rewrite concat_chunks. apply take_ge. lia.
  - intros i c Hc. rewrite length_map, length_seq.
    apply list_lookup_fmap_Some in Hc as (k & -> & Hk).
    apply lookup_seq in Hk as [-> Hi]. cbn.
    split; [done|]. rewrite length_take, length_drop.
    assert (cnt ≠ 0)%nat as Hcnt by lia. specialize (Hleast Hcnt).
    split; [nia|]. intros Hlast. nia.
  - intros ->. cbn in Hleast. destruct cnt as [|cnt]; [done|].
    specialize (Hleast ltac:(done)). lia.
  - rewrite length_map, length_seq. apply Z.div_unique with
      (r := Z.of_nat (length lst) + n - 1 - n * Z.of_nat cnt); [|lia].
    left. destruct (decide (cnt = 0%nat)) as [->|Hcnt].
    + cbn in Hcover. lia.
    + specialize (Hleast Hcnt). subst m. nia.
Qed.

Lemma divide_partitions_witness :
  0 < 2 ∧
  ∃ chunks, divide ["a"; "b"; "c"; "d"; "e"] 2 = Ok chunks ∧
            concat chunks = ["a"; "b"; "c"; "d"; "e"].
Proof.
  assert (0 < 2) as Hn by lia. split; [exact Hn|].
  destruct (proj1 divide_partitions string ["a"; "b"; "c"; "d"; "e"] 2 Hn)
    as (chunks & Hrun & Hcat & _).
  exists chunks. split; [exact Hrun|exact Hcat].
Defined.

(** ** [price_conversion] *)

Lemma is_digit_chars (c : Ascii.ascii) :
  Py.is_digit c = bool_decide (c ∈ digit_chars).
Proof. destruct c as [[] [] [] [] [] [] [] []]; vm_compute; reflexivity. Qed.

Lemma re_sub_non_digits_digits_of (s : string) :
  Py.re_sub_non_digits s = digits_of s.
Proof.
  unfold digits_of, chars. induction s as [|c s IH]; [done|].
  change (String.list_ascii_of_string (String c s))
    with (c :: String.list_ascii_of_string s).
  cbn [Py.re_sub_non_digits]. rewrite is_digit_chars, IH. case_bool_decide.
  - by rewrite filter_cons_True.
  - by rewrite filter_cons_False.
Qed.

Lemma split_head (s : string) :
  ∃ head tl, Py.split "."%char s = head :: tl ∧ before_first_dot s head.
Proof.
  induction s as [|c s (head & tl & IH & Hno & Hs)]; cbn.
  - exists "", []. split; [done|]. split; [by intros ?%elem_of_nil|by left].
  - destruct (Ascii.eqb_spec c "."%char) as [->|Hc].
    + exists "", (Py.split "."%char s). split; [done|].
      split; [by intros ?%elem_of_nil|]. right. by exists s.
    + rewrite IH. exists (String c head), tl. split; [done|]. split.
      * cbn. intros [?|?]%elem_of_cons; [congruence|done].
      * destruct Hs as [->|[rest ->]]; [by left|]. right. by exists rest.
Qed.

(** C6.  On a string, [price_conversion] returns the portion of the string
    before its first ['.'] stripped of every non-digit character, a string
    of digits: ["5990"] for ["5'990.00"] and ["123"] for ["123.45"].  On a
    value that is not a string it raises [AttributeError]. *)
Theorem price_conversion_spec :
  (∀ s, ∃ head,
     before_first_dot s head ∧
     price_conversion (PyStr s) = Ok (digits_of head)) ∧
  (∀ s r, price_conversion (PyStr s) = Ok r →
     Forall (λ c, c ∈ digit_chars) (chars r)) ∧
  price_conversion (PyStr "5'990.00") = Ok "5990" ∧
  price_conversion (PyStr "123.45") = Ok "123" ∧
  (∀ v, (∀ s, v ≠ PyStr s) → price_conversion v = Raise AttributeError) ∧
  price_conversion (PyInt 123) = Raise AttributeError.
Proof.
  assert (∀ s, ∃ head, before_first_dot s head ∧
                       price_conversion (PyStr s) = Ok (digits_of head)) as Hstr.
  { intros s. destruct (split_head s) as (head & tl & Hsplit & Hhead).
    exists head. split; [done|]. cbn. rewrite Hsplit. cbn.
    by rewrite re_sub_non_digits_digits_of. }
  split; [exact Hstr|]. split.
  { intros s r Hr. destruct (Hstr s) as (head & _ & Hrun).
    rewrite Hrun in Hr. injection Hr as <-. unfold digits_of, chars.
    rewrite String.list_ascii_of_string_of_list_ascii.
    apply Forall_forall. by intros c [? _]%list_elem_of_filter. }
  split; [by vm_compute|]. split; [by vm_compute|]. split; [|done].
  intros [| |s] Hv; [done..|]. by destruct (Hv s).
Qed.

Lemma price_conversion_spec_witness :
  ∃ head, before_first_dot "1'000.00" head ∧
          price_conversion (PyStr "1'000.00") = Ok (digits_of head).
Proof. exact (proj1 price_conversion_spec "1'000.00"). Defined.

(** ** The pagination loop of [get_offer_ids] *)

Lemma reaches_total_nil acc : ¬ reaches_total acc [].
Proof. by intros (p & ? & _). Qed.

Lemma reaches_total_cons acc p ps :
  reaches_total acc (p :: ps) ↔
  (ps = [] ∧ page_total p = Z.of_nat (length (acc ++ page_items p))) ∨
  (ps ≠ [] ∧ reaches_total (acc ++ page_items p) ps).
Proof.
  unfold reaches_total, all_items. destruct ps as [|q ps].
  - cbn. rewrite app_nil_r. split.
    + intros (? & [= <-] & ?). by left.
    + intros [[_ ?]|[? _]]; [by exists p|done].
  - cbn [map concat]. rewrite <-(app_assoc acc). split.
    + intros (x & Hx & Hn). right. split; [done|]. by exists x.
    + intros [[? _]|[_ (x & Hx & Hn)]]; [done|]. by exists x.
Qed.

Lemma get_offer_ids_loop_stops catalog pages : ∀ k cur acc,
  answers catalog k cur pages →
  (∃ j, reaches_total acc (take j pages)) →
  ∃ j, (0 < j ≤ length pages)%nat ∧
       reaches_total acc (take j pages) ∧
       (∀ i, (i < j)%nat → ¬ reaches_total acc (take i pages)) ∧
       ∀ fuel, (j ≤ fuel)%nat →
         get_offer_ids_loop catalog fuel k cur acc
         = Returned (acc ++ all_items (take j pages)).
Proof.
  induction pages as [|p ps IH]; intros k cur acc Hans [j Hj].
  { rewrite take_nil in Hj. by apply reaches_total_nil in Hj. }
  destruct Hans as [Hp Hans].
  destruct (decide (page_total p = Z.of_nat (length (acc ++ page_items p))))
    as [Hstop|Hgo].
  - exists 1%nat. cbn [take length]. rewrite take_0.
    split; [lia|]. split; [apply reaches_total_cons; by left|]. split.
    + intros i Hi. replace i with 0%nat by lia. apply reaches_total_nil.
    + intros [|fuel] Hfuel; [lia|]. cbn. unfold get_product_list.
      rewrite Hp, decide_True by done.
      unfold all_items. cbn. by rewrite app_nil_r.
  - destruct j as [|j]; [by apply reaches_total_nil in Hj|].
    cbn [take] in Hj. apply reaches_total_cons in Hj as [[_ ?]|[_ Hj]]; [done|].
    destruct (IH _ _ (acc ++ page_items p) Hans (ex_intro _ j Hj))
      as (j' & Hlen & Hreach & Hfirst & Hrun).
    exists (S j'). cbn [take length]. split; [lia|]. split.
    { apply reaches_total_cons. right. split; [|done].
      intros Hnil. rewrite Hnil in Hreach. by apply reaches_total_nil in Hreach. }
    split.
    + intros [|i] Hi; [apply reaches_total_nil|]. cbn [take].
      intros [[_ ?]|[_ Hr]]%reaches_total_cons; [done|].
      apply (Hfirst i); [lia|done].
    + intros [|fuel] Hfuel; [lia|]. cbn. unfold get_product_list.
      rewrite Hp, decide_False by done. rewrite Hrun by lia.
      unfold all_items. cbn. by rewrite app_assoc.
Qed.

Lemma get_offer_ids_loop_returned catalog : ∀ fuel k cur acc out,
  get_offer_ids_loop catalog fuel k cur acc = Returned out →
  ∃ pages, answers catalog k cur pages ∧
           (length pages ≤ fuel)%nat ∧
           reaches_total acc pages ∧
           out = acc ++ all_items pages.
Proof.
  induction fuel as [|fuel IH]; intros k cur acc out; [done|]. cbn.
  unfold get_product_list. destruct (catalog k cur) as [p|e] eqn:Hp; [|done].
  case_decide as Hstop.
  - intros [= <-]. exists [p]. cbn. split; [done|]. split; [lia|].
    split; [apply reaches_total_cons; by left|].
    unfold all_items. cbn. by rewrite app_nil_r.
  - intros (pages & Hans & Hlen & Hreach & ->)%IH.
    exists (p :: pages). cbn. split; [done|]. split; [lia|]. split.
    + apply reaches_total_cons. right. split; [|done].
      intros ->. by apply reaches_total_nil in Hreach.
    + unfold all_items. cbn. by rewrite app_assoc.
Qed.

Lemma get_offer_ids_loop_out_of_fuel catalog pages : ∀ k cur acc,
  answers catalog k cur pages →
  (∀ j, ¬ reaches_total acc (take j pages)) →
  ∀ fuel, (fuel ≤ length pages)%nat →
    get_offer_ids_loop catalog fuel k cur acc = OutOfFuel.
Proof.
  induction pages as [|p ps IH]; intros k cur acc Hans Hnever fuel Hfuel.
  { cbn in Hfuel. by replace fuel with 0%nat by lia. }
  destruct fuel as [|fuel]; [done|]. destruct Hans as [Hp Hans]. cbn.
  unfold get_product_list. rewrite Hp. cbn in Hfuel. case_decide as Hstop.
  - exfalso. apply (Hnever 1%nat). cbn. rewrite take_0.
    apply reaches_total_cons. by left.
  - apply IH; [done| |lia]. intros j Hj. apply (Hnever (S j)). cbn.
    apply reaches_total_cons. right. split; [|done].
    intros Hnil. rewrite Hnil in Hj. by apply reaches_total_nil in Hj.
Qed.

(** C7.  The loop of [get_offer_ids] accumulates the items of the pages it
    is served and stops at the first page at which the accumulated count
    equals the total that the page reports; it then returns the offer
    identifiers of the accumulated items, in the order of retrieval, and
    their number is that total.  So, when the catalog serves pages some
    prefix of which reaches its total, the loop returns, with any fuel that
    covers that prefix; it returns in no other case; and as long as the pages
    served do not reach their total, the loop goes on.  With three pages of
    1000, 1000 and 500 items and a total of 2500 it returns 2500
    identifiers at the third request, and not before. *)
Theorem get_offer_ids_pagination :
  (∀ catalog : nat → string → result page,
     (∀ pages,
        answers catalog 0 "" pages →
        (∃ j, reaches_total [] (take j pages)) →
        ∃ j p,
          (0 < j ≤ length pages)%nat ∧
          last (take j pages) = Some p ∧
          (∀ i, (i < j)%nat → ¬ reaches_total [] (take i pages)) ∧
          Z.of_nat (length (all_items (take j pages))) = page_total p ∧
          ∀ fuel, (j ≤ fuel)%nat →
            get_offer_ids catalog fuel
            = Returned (map prod_offer_id (all_items (take j pages)))) ∧
     (∀ fuel ids,
        get_offer_ids catalog fuel = Returned ids →
        ∃ pages,
          answers catalog 0 "" pages ∧
          (length pages ≤ fuel)%nat ∧
          reaches_total [] pages ∧
          ids = map prod_offer_id (all_items pages)) ∧
     (∀ pages,
        answers catalog 0 "" pages →
        (∀ j, ¬ reaches_total [] (take j pages)) →
        ∀ fuel, (fuel ≤ length pages)%nat →
          get_offer_ids catalog fuel = OutOfFuel)) ∧
  (∃ ids,
     get_offer_ids catalog_2500 3 = Returned ids ∧
     length ids = 2500%nat ∧
     get_offer_ids catalog_2500 2 = OutOfFuel).
Proof.
  split.
  - intros catalog. unfold get_offer_ids. split; [|split].
    + intros pages Hans Hsome.
      destruct (get_offer_ids_loop_stops catalog pages 0 "" [] Hans Hsome)
        as (j & Hj & (p & Hlast & Htotal) & Hfirst & Hrun).
      exists j, p. split; [done|]. split; [done|]. split; [done|].
      split; [done|]. intros fuel Hfuel. by rewrite Hrun.
    + intros fuel ids.
      destruct (get_offer_ids_loop catalog fuel 0 "" []) as [out| |] eqn:Hrun;
        [|done..].
      intros [= <-].
      apply get_offer_ids_loop_returned in Hrun as (pages & ? & ? & ? & ->).
      by exists pages.
    + intros pages Hans Hnever fuel Hfuel.
      by rewrite (get_offer_ids_loop_out_of_fuel catalog pages).
  - eexists. split; [vm_compute; reflexivity|]. split; by vm_compute.
Qed.

Lemma get_offer_ids_pagination_witness :
  let pages :=
    [Page (replicate 2 (Product 0 "x")) 5 "0";
     Page (replicate 2 (Product 1 "x")) 5 "1";
     Page (replicate 1 (Product 2 "x")) 5 "2"] in
  let catalog := λ (k : nat) (_ : string),
    Ok (Page (replicate (if (k <? 2)%nat then 2%nat else 1%nat)
                        (Product (Z.of_nat k) "x"))
             5 (pretty (Z.of_nat k))) in
  answers catalog 0 "" pages ∧
  reaches_total [] (take 3 pages) ∧
  ∃ j p,
    (0 < j ≤ length pages)%nat ∧
    last (take j pages) = Some p ∧
    (∀ i, (i < j)%nat → ¬ reaches_total [] (take i pages)) ∧
    Z.of_nat (length (all_items (take j pages))) = page_total p ∧
    ∀ fuel, (j ≤ fuel)%nat →
      get_offer_ids catalog fuel
      = Returned (map prod_offer_id (all_items (take j pages))).
Proof.
  intros pages catalog.
  assert (answers catalog 0 "" pages) as Hans by (vm_compute; tauto).
  assert (reaches_total [] (take 3 pages)) as Hreach.
  { eexists. split; [vm_compute; reflexivity|]. vm_compute. reflexivity. }
  split; [exact Hans|]. split; [exact Hreach|].
  exact (proj1 (proj1 get_offer_ids_pagination catalog) pages Hans
               (ex_intro _ 3%nat Hreach)).
Defined.

(** * Further properties *)

(** ** [create_stocks] on any list *)

(** X1.  Whatever the list, duplicate-free or not, the offer identifiers
    of the result of [create_stocks] are the entries of the list in some
    order: the result has one record for each entry. *)
Theorem create_stocks_one_record_per_entry (rem : list row)
    (ids : list string) (stocks : list stock_update) (ids' : list string) :
  create_stocks rem ids = (Ok stocks, ids') →
  map su_offer_id stocks ≡ₚ ids ∧ length stocks = length ids.
Proof.
  intros Hrun.
  assert (map su_offer_id stocks ≡ₚ ids) as Hperm.
  { rewrite (create_stocks_offer_ids _ _ _ _ Hrun).
    apply matched_remaining_perm. }
  split; [done|]. by rewrite <-Hperm, length_map.
Qed.

Lemma create_stocks_one_record_per_entry_witness :
  create_stocks [rowA; rowA2] ["A"; "B"; "A"]
  = (Ok [StockUpdate "A" 100; StockUpdate "A" 7; StockUpdate "B" 0], ["B"]) ∧
  map su_offer_id [StockUpdate "A" 100; StockUpdate "A" 7; StockUpdate "B" 0]
  ≡ₚ ["A"; "B"; "A"].
Proof.
  assert (create_stocks [rowA; rowA2] ["A"; "B"; "A"]
          = (Ok [StockUpdate "A" 100; StockUpdate "A" 7; StockUpdate "B" 0],
             ["B"])) as Hrun by (vm_compute; reflexivity).
  split; [exact Hrun|].
  exact (proj1 (create_stocks_one_record_per_entry _ _ _ _ Hrun)).
Defined.

Lemma create_stocks_loop_app done : ∀ rest stocks ids,
  Forall (λ w, is_Ok (stock_of w)) (matched_rows done ids) →
  ∃ us, Forall2 emitted (matched_rows done ids) us ∧
        create_stocks_loop (done ++ rest) stocks ids
        = create_stocks_loop rest (stocks ++ us) (remaining done ids).
Proof.
  induction done as [|w done IH]; intros rest stocks ids Hall.
  - exists []. split; [constructor|]. cbn. by rewrite app_nil_r.
  - cbn [matched_rows remaining] in *. cbn [app]. run_step.
    destruct (decide (code w ∈ ids)) as [Hin|Hout].
    + rewrite bool_decide_eq_true_2 by done.
      apply Forall_cons in Hall as [[z Hz] Hall]. rewrite Hz.
      rewrite decide_True by done.
      destruct (IH rest (stocks ++ [StockUpdate (code w) z]) _ Hall)
        as (us & Hus & Hrun).
      exists (StockUpdate (code w) z :: us).
      split; [constructor; [by split|done]|].
      by rewrite Hrun, <-app_assoc.
    + rewrite bool_decide_eq_false_2 by done. by apply IH.
Qed.

(** X2.  [create_stocks] raises exactly when the stock of some matched row
    cannot be computed, and then with the exception of the first such
    row: the rows before it have been processed, the rows after it are not
    looked at. *)
Theorem create_stocks_raises (rem : list row) (ids : list string) (e : exn) :
  (create_stocks rem ids).1 = Raise e ↔
  ∃ done watch rest,
    rem = done ++ watch :: rest ∧
    Forall (λ w, is_Ok (stock_of w)) (matched_rows done ids) ∧
    code watch ∈ remaining done ids ∧
    stock_of watch = Raise e.
Proof.
  split.
  - intros Hraise. unfold create_stocks, bind, content, ret in Hraise.
    destruct (create_stocks_loop_run rem [] ids)
      as (done & us & Hus & _ & Hres).
    destruct (create_stocks_loop rem [] ids) as [[out|e'] st]; [done|].
    cbn in *. injection Hraise as ->.
    destruct Hres as (w & rest & -> & Hw & He). exists done, w, rest.
    split; [done|]. split; [|done]. apply Forall_forall. intros v Hv.
    destruct (Forall2_elem_of_l _ _ _ v Hus Hv) as (u & _ & _ & Hu).
    by eexists.
  - intros (done & w & rest & -> & Hall & Hw & He).
    unfold create_stocks, bind, content, ret.
    destruct (create_stocks_loop_app done (w :: rest) [] ids Hall)
      as (us & _ & ->).
    run_step. by rewrite bool_decide_eq_true_2, He by done.
Qed.

Lemma create_stocks_raises_witness :
  (create_stocks [rowD; rowC; {[ "Код" := PyStr "A" ]}; rowA] ["A"; "D"]).1
  = Raise TypeError.
Proof.
  apply create_stocks_raises.
  exists [rowD; rowC], {[ "Код" := PyStr "A" ]}, [rowA].
  split; [reflexivity|]. split; [|split].
  - vm_compute. repeat constructor. by exists 23.
  - vm_compute. left.
  - vm_compute. reflexivity.
Defined.

Lemma create_stocks_loop_known_rows (known : list string) rem :
  ∀ stocks ids,
    ids ⊆ known →
    create_stocks_loop (filter (λ w, code w ∈ known) rem) stocks ids
    = create_stocks_loop rem stocks ids.
Proof.
  induction rem as [|w rem IH]; intros stocks ids Hsub; [done|].
  destruct (decide (code w ∈ known)) as [Hk|Hk].
  - rewrite filter_cons_True by done. run_step.
    destruct (bool_decide (code w ∈ ids)); [|by apply IH].
    destruct (stock_of w); [|done]. case_decide; [|done].
    apply IH. intros x Hx. apply Hsub.
    eapply elem_of_sublist; [exact Hx|apply remove_first_sublist].
  - rewrite filter_cons_False by done. run_step.
    rewrite bool_decide_eq_false_2 by (intros ?; by apply Hk, Hsub).
    by apply IH.
Qed.

(** X3.  The rows whose code is not in the list have no influence on
    [create_stocks]: without them the result, the exception and the content
    left are the same.  On an empty list the result is empty, whatever the
    rows. *)
Theorem create_stocks_ignores_unknown_rows (rem : list row)
    (ids : list string) :
  create_stocks (filter (λ w, code w ∈ ids) rem) ids = create_stocks rem ids ∧
  create_stocks rem [] = (Ok [], []).
Proof.
  assert (∀ l, create_stocks (filter (λ w, code w ∈ l) rem) l
               = create_stocks rem l) as Hfilter.
  { intros l. unfold create_stocks, bind.
    by rewrite create_stocks_loop_known_rows. }
  split; [apply Hfilter|]. rewrite <-Hfilter.
  rewrite filter_code_nil; [done|]. intros w _. apply not_elem_of_nil.
Qed.

(** ** The stock of a numeric or missing quantity *)

Lemma pretty_N_go_not_gt (x : N) (s s' : string) :
  s ≠ String ">"%char s' → pretty_N_go x s ≠ String ">"%char s'.
Proof.
  revert s. induction (N.lt_wf_0 x) as [x _ IH]; intros s Hs.
  assert (x = 0 ∨ 0 < x)%N as [->|Hx] by lia.
  - by rewrite pretty_N_go_0.
  - rewrite pretty_N_go_step by done. apply IH.
    { by apply N.div_lt. }
    unfold pretty_N_char. by repeat case_match.
Qed.

Lemma str_int_not_gt_10 (z : Z) : Py.str (PyInt z) ≠ ">10".
Proof.
  destruct z as [|p|p]; cbn; unfold pretty, pretty_Z; [done| |done].
  unfold pretty, pretty_positive, pretty, pretty_N.
  rewrite decide_False by done. by apply pretty_N_go_not_gt.
Qed.

(** X4.  An integer quantity cell yields itself as stock, except the
    integer 1, which yields 0 as the token ["1"] does; a row without
    quantity makes the computation of its stock raise [TypeError]. *)
Theorem stock_of_cell (watch : row) :
  (∀ z, get watch "Количество" = PyInt z →
        stock_of watch = Ok (if decide (z = 1) then 0 else z)) ∧
  (watch !! "Количество" = None → stock_of watch = Raise TypeError).
Proof.
  unfold stock_of, get. split.
  - intros z ->. cbn zeta.
    rewrite decide_False by apply str_int_not_gt_10.
    destruct (decide (z = 1)) as [->|Hz]; [done|].
    rewrite decide_False; [done|].
    intros Heq. apply Hz, (inj (pretty : Z → string)). exact Heq.
  - by intros ->.
Qed.

Lemma stock_of_cell_witness :
  stock_of (row_int 1) = Ok 0 ∧ stock_of (row_int (-4)) = Ok (-4) ∧
  stock_of {[ "Код" := PyStr "A" ]} = Raise TypeError.
Proof.
  split; [|split].
  - exact (proj1 (stock_of_cell (row_int 1)) 1 eq_refl).
  - exact (proj1 (stock_of_cell (row_int (-4))) (-4) eq_refl).
  - exact (proj2 (stock_of_cell {[ "Код" := PyStr "A" ]}) eq_refl).
Defined.


(** ** [price_conversion] and [create_prices], further *)

Lemma price_conversion_str (s : string) :
  ∃ head, before_first_dot s head ∧
          price_conversion (PyStr s) = Ok (Py.re_sub_non_digits head).
Proof.
  destruct (split_head s) as (head & tl & Hsplit & Hhead).
  exists head. split; [done|]. cbn. by rewrite Hsplit.
Qed.

Lemma price_conversion_Ok_iff (v : pyval) :
  is_Ok (price_conversion v) ↔ ∃ s, v = PyStr s.
Proof.
  split.
  - intros [r Hr]. destruct v as [| |s]; [done..|]. by exists s.
  - intros [s ->]. destruct (price_conversion_str s) as (h & _ & ->).
    by eexists.
Qed.

Lemma price_conversion_raises (v : pyval) (e : exn) :
  price_conversion v = Raise e → e = AttributeError.
Proof.
  destruct v as [| |s]; [by intros [= <-]..|].
  destruct (price_conversion_str s) as (h & _ & ->). done.
Qed.

(** X5.  [create_prices] returns exactly when the price of every row whose
    code is in the list is a string; otherwise it raises [AttributeError]:
    a numeric or missing price in one such row is enough. *)
Theorem create_prices_needs_string_prices (rem : list row)
    (ids : list string) :
  (is_Ok (create_prices rem ids).1 ↔
   Forall (λ w, ∃ s, get w "Цена" = PyStr s)
          (filter (λ w, code w ∈ ids) rem)) ∧
  (∀ e, (create_prices rem ids).1 = Raise e → e = AttributeError).
Proof.
  unfold create_prices.
  pose proof (create_prices_loop_run rem [] ids) as Hrun. split; [split|].
  - intros [ps Hps]. rewrite Hps in Hrun. destruct Hrun as (ps' & _ & Hall).
    apply Forall_forall. intros w Hw.
    destruct (Forall2_elem_of_l _ _ _ w Hall Hw) as (p & _ & Hp).
    apply price_conversion_Ok_iff. destruct Hp as (_ & _ & _ & _ & Hp).
    by eexists.
  - intros Hall. destruct (create_prices_loop rem [] ids).1 as [ps|e];
      [by eexists|].
    destruct Hrun as (w & Hw & He).
    eapply Forall_forall in Hall; [|exact Hw].
    apply price_conversion_Ok_iff in Hall as [r Hr]. congruence.
  - intros e He. rewrite He in Hrun. destruct Hrun as (w & _ & Hw).
    by eapply price_conversion_raises.
Qed.

Lemma create_prices_needs_string_prices_witness :
  (create_prices [rowA; row_int 3] ["A"]).1 = Raise AttributeError.
Proof.
  destruct (create_prices [rowA; row_int 3] ["A"]).1 as [ps|e] eqn:Hrun.
  - exfalso. vm_compute in Hrun. discriminate Hrun.
  - f_equal.
    exact (proj2 (create_prices_needs_string_prices [rowA; row_int 3] ["A"])
                 e Hrun).
Defined.

Lemma Forall2_priced_inj (l : list row) (ps ps' : list price_update) :
  Forall2 priced l ps → Forall2 priced l ps' → ps = ps'.
Proof.
  intros Hps. revert ps'.
  induction Hps as [|w p l ps Hp _ IH]; intros ps' Hps'.
  - by apply Forall2_nil_inv_l in Hps'.
  - apply Forall2_cons_inv_l in Hps' as (p' & k & Hp' & Hk & ->).
    f_equal; [|by apply IH].
    destruct Hp as (? & ? & ? & ? & Hx), Hp' as (? & ? & ? & ? & Hx').
    destruct p, p'. cbn in *. congruence.
Qed.

Lemma create_prices_Ok_iff (rem : list row) (ids : list string)
    (ps : list price_update) :
  (create_prices rem ids).1 = Ok ps ↔
  Forall2 priced (filter (λ w, code w ∈ ids) rem) ps.
Proof.
  unfold create_prices.
  pose proof (create_prices_loop_run rem [] ids) as Hrun. split.
  - intros Hps. rewrite Hps in Hrun. by destruct Hrun as (ps' & -> & Hall).
  - intros Hall. destruct (create_prices_loop rem [] ids).1 as [out|e].
    + destruct Hrun as (ps' & -> & Hall'). f_equal.
      by eapply Forall2_priced_inj.
    + destruct Hrun as (w & Hw & He).
      destruct (Forall2_elem_of_l _ _ _ w Hall Hw)
        as (p & _ & _ & _ & _ & _ & Hp).
      congruence.
Qed.

(** X6.  [create_prices] goes through the remnants row by row and
    independently: the result for two lists of rows put end to end is the
    result for the first followed by the result for the second. *)
Theorem create_prices_app (rem1 rem2 : list row) (ids : list string)
    (ps1 ps2 : list price_update) :
  (create_prices rem1 ids).1 = Ok ps1 →
  (create_prices rem2 ids).1 = Ok ps2 →
  create_prices (rem1 ++ rem2) ids = (Ok (ps1 ++ ps2), ids).
Proof.
  intros H1%create_prices_Ok_iff H2%create_prices_Ok_iff.
  pose proof (create_prices_loop_store (rem1 ++ rem2) [] ids) as Hst.
  assert ((create_prices (rem1 ++ rem2) ids).1 = Ok (ps1 ++ ps2)) as Hres.
  { apply create_prices_Ok_iff. rewrite filter_app. by apply Forall2_app. }
  unfold create_prices in *.
  destruct (create_prices_loop (rem1 ++ rem2) [] ids) as [r st]. cbn in *.
  by subst.
Qed.

Lemma create_prices_app_witness :
  create_prices ([rowD; rowA] ++ [rowA2]) ["A"; "B"]
  = (Ok ([PriceUpdate "UNKNOWN" "RUB" "A" "0" "1000"]
         ++ [PriceUpdate "UNKNOWN" "RUB" "A" "0" "2000"]), ["A"; "B"]).
Proof.
  apply create_prices_app; vm_compute; reflexivity.
Defined.

Lemma re_sub_non_digits_all_digits (s : string) :
  Forall (λ c, Py.is_digit c = true) (chars (Py.re_sub_non_digits s)).
Proof.
  induction s as [|c s IH]; cbn; [constructor|].
  destruct (Py.is_digit c) eqn:Hc; [|done]. by constructor.
Qed.

Lemma split_no_sep (sep : Ascii.ascii) (s : string) :
  sep ∉ chars s → Py.split sep s = [s].
Proof.
  induction s as [|c s IH]; [done|]. cbn.
  intros [Hc Hs]%not_elem_of_cons.
  destruct (Ascii.eqb_spec c sep) as [->|_]; [done|]. by rewrite IH.
Qed.

Lemma re_sub_non_digits_id (s : string) :
  Forall (λ c, Py.is_digit c = true) (chars s) → Py.re_sub_non_digits s = s.
Proof.
  induction s as [|c s IH]; [done|]. cbn.
  intros [-> Hs]%Forall_cons. by rewrite IH.
Qed.

(** X7.  [price_conversion] is idempotent: a converted price converts to
    itself. *)
Theorem price_conversion_idempotent (s r : string) :
  price_conversion (PyStr s) = Ok r → price_conversion (PyStr r) = Ok r.
Proof.
  destruct (price_conversion_str s) as (head & _ & ->). intros [= <-].
  pose proof (re_sub_non_digits_all_digits head) as Hdigits. cbn.
  rewrite split_no_sep.
  - cbn. by rewrite re_sub_non_digits_id.
  - intros Hdot. eapply Forall_forall in Hdigits; [|exact Hdot]. done.
Qed.

Lemma price_conversion_idempotent_witness :
  price_conversion (PyStr "5'990.00") = Ok "5990" ∧
  price_conversion (PyStr "5990") = Ok "5990".
Proof.
  assert (price_conversion (PyStr "5'990.00") = Ok "5990") as Hrun
    by (vm_compute; reflexivity).
  split; [exact Hrun|]. exact (price_conversion_idempotent _ _ Hrun).
Defined.

(** X8.  [price_conversion] drops a leading character that is neither a
    digit nor the ['.'], a sign for instance; and a price that starts with
    ['.'] converts to the empty string. *)
Theorem price_conversion_leading_character (c : Ascii.ascii) (s : string) :
  (Py.is_digit c = false → c ≠ "."%char →
   price_conversion (PyStr (String c s)) = price_conversion (PyStr s)) ∧
  price_conversion (PyStr (String "."%char s)) = Ok EmptyString.
Proof.
  split; [|done]. intros Hdigit Hdot. cbn.
  destruct (Ascii.eqb_spec c "."%char) as [?|_]; [done|].
  destruct (split_head s) as (head & tl & -> & _). cbn. by rewrite Hdigit.
Qed.

Lemma price_conversion_leading_character_witness :
  price_conversion (PyStr "-12.50") = price_conversion (PyStr "12.50").
Proof.
  apply (proj1 (price_conversion_leading_character "-"%char "12.50"));
    [reflexivity|discriminate].
Defined.

(** ** [divide], further *)

(** X9.  With [n = 0], [divide] raises [ValueError], on the empty list
    too; with a negative [n] it yields no slice at all, whatever the
    list. *)
Theorem divide_nonpositive (A : Type) (lst : list A) (n : Z) :
  (n = 0 → divide lst n = Raise ValueError) ∧
  (n < 0 → divide lst n = Ok []).
Proof.
  unfold divide, Py.range, Py.range_length. split.
  - intros ->. done.
  - intros Hn. rewrite decide_False, (decide_False (P := 0 < n)) by lia.
    rewrite decide_False by lia. done.
Qed.

Lemma divide_nonpositive_witness :
  divide ["a"; "b"; "c"] 0 = Raise ValueError ∧
  divide ["a"; "b"; "c"] (-2) = Ok [].
Proof.
  split.
  - exact (proj1 (divide_nonpositive string ["a"; "b"; "c"] 0) eq_refl).
  - apply (proj2 (divide_nonpositive string ["a"; "b"; "c"] (-2))). lia.
Defined.

(** X10.  A list that is not empty and has at most [n] elements is
    yielded whole, as one slice. *)
Theorem divide_short_list (A : Type) (lst : list A) (n : Z) :
  lst ≠ [] → Z.of_nat (length lst) ≤ n → divide lst n = Ok [lst].
Proof.
  intros Hne Hlen.
  assert (0 < length lst)%nat as Hpos by (destruct lst; [done|cbn; lia]).
  destruct (divide_chunks lst n) as (cnt & -> & Hcover & Hleast); [lia|].
  cbn zeta in *. f_equal.
  assert (cnt = 1%nat) as ->.
  { destruct cnt as [|[|cnt]]; [lia|done|].
    specialize (Hleast ltac:(done)). nia. }
  cbn. rewrite drop_0, take_ge by lia. done.
Qed.

Lemma divide_short_list_witness :
  divide ["a"; "b"; "c"] 100 = Ok [["a"; "b"; "c"]].
Proof. apply divide_short_list; [discriminate|cbn; lia]. Defined.

(** ** The requests sent *)






(** X12.  The first list that [upload_stocks] returns only holds records
    computed from remnant rows: the records added for the identifiers that
    no row bears have stock 0 and are left out. *)
Theorem upload_stocks_not_empty_from_rows
    (catalog : nat → string → result page)
    (accepts : list request → request → bool) (fuel : nat)
    (rem : list row) (log log' : list request)
    (not_empty stocks : list stock_update) :
  upload_stocks catalog accepts fuel rem log
  = (Returned (not_empty, stocks), log') →
  ∀ u, u ∈ not_empty →
       su_stock u ≠ 0 ∧
       ∃ watch, watch ∈ rem ∧ code watch = su_offer_id u ∧
                stock_of watch = Ok (su_stock u).
Proof.
  unfold upload_stocks, upload_stocks_from.
  destruct (get_offer_ids catalog fuel) as [ids| |]; [|done..].
  destruct (create_stocks rem ids) as [[st|e] ids'] eqn:Hrun; [|done].
  unfold bind, lift, ret. destruct (divide st 100) as [chunks|e]; [|done].
  destruct (for_each (update_stocks accepts) chunks log) as [[[]|e] l];
    [|done].
  intros [= <- <- <-] u [Hnz Hu]%list_elem_of_filter. split; [done|].
  apply create_stocks_Ok in Hrun as (us & Hus & -> & _).
  apply elem_of_app in Hu as [Hu|Hu].
  - destruct (Forall2_elem_of_r _ _ _ u Hus Hu) as (w & Hw & Hid & Hst).
    exists w. split; [by eapply matched_rows_elem_of|done].
  - by apply list_elem_of_fmap in Hu as (x & -> & _).
Qed.

Lemma upload_stocks_not_empty_from_rows_witness :
  su_stock (StockUpdate "A" 100) ≠ 0 ∧
  ∃ watch, watch ∈ [rowA] ∧ code watch = su_offer_id (StockUpdate "A" 100) ∧
           stock_of watch = Ok (su_stock (StockUpdate "A" 100)).
Proof.
  apply (upload_stocks_not_empty_from_rows catalog_AB (λ _ _, true) 1 [rowA]
           [] [StocksImport [StockUpdate "A" 100; StockUpdate "B" 0]]
           [StockUpdate "A" 100] [StockUpdate "A" 100; StockUpdate "B" 0]).
  - vm_compute. reflexivity.
  - left.
Defined.



(** ** [get_offer_ids], further *)

Lemma get_offer_ids_loop_skip catalog pages : ∀ k cur acc,
  answers catalog k cur pages →
  (∀ j, ¬ reaches_total acc (take j pages)) →
  ∀ fuel,
    get_offer_ids_loop catalog (length pages + fuel) k cur acc
    = get_offer_ids_loop catalog fuel (k + length pages)
        (cursor_after cur pages) (acc ++ all_items pages).
Proof.
  induction pages as [|p ps IH]; intros k cur acc Hans Hnever fuel.
  { cbn. by rewrite Nat.add_0_r, app_nil_r. }
  destruct Hans as [Hp Hans]. cbn [length Nat.add get_offer_ids_loop].
  unfold get_product_list. rewrite Hp. case_decide as Hstop.
  - exfalso. apply (Hnever 1%nat). cbn. rewrite take_0.
    apply reaches_total_cons. by left.
  - rewrite IH; [|done|].
    + unfold all_items. cbn. rewrite <-app_assoc. f_equal. lia.
    + intros j Hj. apply (Hnever (S j)). cbn.
      apply reaches_total_cons. right. split; [|done].
      intros Hnil. rewrite Hnil in Hj. by apply reaches_total_nil in Hj.
Qed.

(** X14.  When a request fails before the accumulated count has equalled a
    reported total, [get_offer_ids] raises the exception of that request:
    the pages already fetched are lost. *)
Theorem get_offer_ids_request_fails (catalog : nat → string → result page)
    (pages : list page) (e : exn) :
  answers catalog 0 "" pages →
  (∀ j, ¬ reaches_total [] (take j pages)) →
  catalog (length pages) (cursor_after "" pages) = Raise e →
  ∀ fuel, (length pages < fuel)%nat → get_offer_ids catalog fuel = Raised e.
Proof.
  intros Hans Hnever Hfail fuel Hfuel. unfold get_offer_ids.
  replace fuel with (length pages + S (fuel - length pages - 1))%nat by lia.
  rewrite (get_offer_ids_loop_skip catalog pages) by done.
  cbn. unfold get_product_list. by rewrite Hfail.
Qed.

Lemma get_offer_ids_request_fails_witness :
  get_offer_ids catalog_broken 3 = Raised HTTPError.
Proof.
  apply (get_offer_ids_request_fails catalog_broken
           [Page [Product 0 "x"] 9 "c"; Page [Product 1 "x"] 9 "c"]).
  - vm_compute. tauto.
  - intros [|[|[|j]]] (p & Hlast & Htotal); vm_compute in Hlast;
      [discriminate Hlast|injection Hlast as <-; vm_compute in Htotal;
                          discriminate Htotal..].
  - vm_compute. reflexivity.
  - cbn. lia.
Defined.

Lemma get_offer_ids_loop_past_total catalog : ∀ fuel k cur acc,
  (∀ k' c, (k ≤ k')%nat →
     ∃ p, catalog k' c = Ok p ∧ page_total p < Z.of_nat (length acc)) →
  get_offer_ids_loop catalog fuel k cur acc = OutOfFuel.
Proof.
  induction fuel as [|fuel IH]; intros k cur acc Hpast; [done|]. cbn.
  unfold get_product_list.
  destruct (Hpast k cur) as (p & -> & Hp); [lia|].
  rewrite decide_False by (rewrite length_app; lia).
  apply IH. intros k' c Hk'. destruct (Hpast k' c) as (q & ? & ?); [lia|].
  exists q. split; [done|]. rewrite length_app. lia.
Qed.

(** X15.  The loop stops on equality only.  Once the accumulated count has
    gone past the total without having equalled it, and the catalog goes
    on answering with totals below that count, [get_offer_ids] never
    returns: no fuel suffices. *)
Theorem get_offer_ids_past_total (catalog : nat → string → result page)
    (pages : list page) :
  answers catalog 0 "" pages →
  (∀ j, ¬ reaches_total [] (take j pages)) →
  (∀ k c, (length pages ≤ k)%nat →
     ∃ p, catalog k c = Ok p ∧
          page_total p < Z.of_nat (length (all_items pages))) →
  ∀ fuel, get_offer_ids catalog fuel = OutOfFuel.
Proof.
  intros Hans Hnever Hpast fuel. unfold get_offer_ids.
  destruct (decide (fuel ≤ length pages)%nat) as [Hle|Hgt].
  - by rewrite (get_offer_ids_loop_out_of_fuel catalog pages).
  - replace fuel with (length pages + (fuel - length pages))%nat by lia.
    rewrite (get_offer_ids_loop_skip catalog pages) by done.
    rewrite get_offer_ids_loop_past_total; [done|].
    intros k' c Hk'. apply Hpast. lia.
Qed.

Lemma get_offer_ids_past_total_witness :
  get_offer_ids catalog_threes 1000 = OutOfFuel.
Proof.
  generalize 1000%nat.
  apply (get_offer_ids_past_total catalog_threes
           [Page (replicate 3 (Product 0 "x")) 5 "0";
            Page (replicate 3 (Product 1 "x")) 5 "1"]).
  - vm_compute. tauto.
  - intros [|[|[|j]]] (p & Hlast & Htotal); vm_compute in Hlast;
      [discriminate Hlast|injection Hlast as <-; vm_compute in Htotal;
                          discriminate Htotal..].
  - intros k c _. eexists. split; [reflexivity|]. cbn. lia.
Defined.

(** ** [main], further *)


